(** * rofi-apps: a shallow embedding of [rofi-apps.py]

    The script lists desktop entries for the rofi launcher.  Its own code
    is embedded below function by function.  The collaborators it calls
    (the file system, [json.loads], [re.search], [Gio.DesktopAppInfo],
    [locale]) are gathered in the record [Env]: every result about the
    script holds for any behaviour of these collaborators. *)

From Stdlib Require Import List String Ascii DecimalString Bool Arith ZArith Lia.
From Stdlib Require Import Permutation Sorted OrderedTypeEx.
Import ListNotations.
Open Scope string_scope.

(** ** Exceptions and results *)

(** The Python exceptions the script can meet.  The message is what
    [str(e)] gives; message texts follow CPython 3.12 and no result
    below depends on them. *)
Inductive exn : Type :=
| TypeError (msg : string)
| NameError (msg : string)
| AttributeError (msg : string)
| IndexError (msg : string)
| KeyError (msg : string)
| OSError (msg : string)
| JSONDecodeError (msg : string)
| ReError (msg : string)
| LocaleError (msg : string)
| SystemExit (code : nat).

Definition exn_str (e : exn) : string :=
  match e with
  | TypeError m | NameError m | AttributeError m | IndexError m
  | KeyError m | OSError m | JSONDecodeError m | ReError m
  | LocaleError m => m
  | SystemExit c => NilEmpty.string_of_uint (Nat.to_uint c)
  end.

(** A computation that returns a value or raises. *)
Inductive Res (A : Type) : Type :=
| Ok (a : A)
| Raise (e : exn).
Arguments Ok {A} a.
Arguments Raise {A} e.

Definition rbind {A B} (c : Res A) (k : A -> Res B) : Res B :=
  match c with
  | Ok a => k a
  | Raise e => Raise e
  end.

Declare Scope res_scope.
Delimit Scope res_scope with res.
Notation "x <- c ;; k" := (rbind c (fun x => k))
  (at level 100, c at next level, right associativity) : res_scope.

(** ** JSON values as Python sees them *)

(** What [json.loads] returns.  [JObj] is a Python dict: its items in
    insertion order, with distinct keys. *)
#[local] Set Warnings "-register-all".
Inductive json : Type :=
| JNull
| JBool (b : bool)
| JInt (n : Z)
| JFloat (lit : string)
| JStr (s : string)
| JArr (l : list json)
| JObj (kvs : list (string * json)).

Definition py_type_name (v : json) : string :=
  match v with
  | JNull => "NoneType"
  | JBool _ => "bool"
  | JInt _ => "int"
  | JFloat _ => "float"
  | JStr _ => "str"
  | JArr _ => "list"
  | JObj _ => "dict"
  end.

Fixpoint assoc (k : string) (kvs : list (string * json)) : option json :=
  match kvs with
  | [] => None
  | (k', v) :: rest => if String.eqb k k' then Some v else assoc k rest
  end.

Definition has_key (k : string) (kvs : list (string * json)) : bool :=
  existsb (fun kv => String.eqb k (fst kv)) kvs.

(** [k in s] for two strings: [k] occurs somewhere in [s]. *)
Fixpoint str_in (k s : string) : bool :=
  String.prefix k s ||
  match s with
  | EmptyString => false
  | String _ s' => str_in k s'
  end.

Definition is_str (k : string) (v : json) : bool :=
  match v with
  | JStr s => String.eqb k s
  | _ => false
  end.

(** [len(v)] *)
Definition py_len (v : json) : Res nat :=
  match v with
  | JObj kvs => Ok (List.length kvs)
  | JArr l => Ok (List.length l)
  | JStr s => Ok (String.length s)
  | _ => Raise (TypeError ("object of type '" ++ py_type_name v ++ "' has no len()"))
  end.

(** [k in v] for a string [k] *)
Definition py_contains (k : string) (v : json) : Res bool :=
  match v with
  | JObj kvs => Ok (has_key k kvs)
  | JArr l => Ok (existsb (is_str k) l)
  | JStr s => Ok (str_in k s)
  | _ => Raise (TypeError ("argument of type '" ++ py_type_name v ++ "' is not iterable"))
  end.

(** [v[k]] for a string [k] *)
Definition py_getitem (v : json) (k : string) : Res json :=
  match v with
  | JObj kvs =>
      match assoc k kvs with
      | Some x => Ok x
      | None => Raise (KeyError ("'" ++ k ++ "'"))
      end
  | JArr _ => Raise (TypeError "list indices must be integers or slices, not str")
  | JStr _ => Raise (TypeError "string indices must be integers, not 'str'")
  | _ => Raise (TypeError ("'" ++ py_type_name v ++ "' object is not subscriptable"))
  end.

(** The values a [for x in v] loop runs over. *)
Definition py_iter (v : json) : Res (list json) :=
  match v with
  | JArr l => Ok l
  | JObj kvs => Ok (map (fun kv => JStr (fst kv)) kvs)
  | JStr s => Ok (map (fun c => JStr (String c EmptyString)) (list_ascii_of_string s))
  | _ => Raise (TypeError ("'" ++ py_type_name v ++ "' object is not iterable"))
  end.

(** ** Desktop entries as Gio presents them *)

Record GFile : Type := { get_path : option string }.

Inductive GIcon : Type :=
| FileIcon (file : option GFile)
| ThemedIcon (names : list string)
| OtherIcon.

Record DesktopAppInfo : Type := {
  get_nodisplay : bool;
  get_name : string;
  get_commandline : option string;
  get_filename : string;
  get_icon : option GIcon
}.

(** What a desktop file holds, before it is tied to its path. *)
Record KeyFile : Type := {
  kf_nodisplay : bool;
  kf_name : string;
  kf_exec : option string;
  kf_icon : option GIcon
}.

(** ** The collaborators of the script *)

Record Env : Type := {
  (** [str(Path.home())] *)
  home : string;
  (** [str(Path(__file__).parent.absolute())] *)
  script_dir : string;
  (** [Path.exists] *)
  path_exists : string -> bool;
  (** [open(path, "r")] followed by [read()] *)
  read_text : string -> Res string;
  (** [json.loads] *)
  json_loads : string -> Res json;
  (** the paths [Path.rglob("*")] yields under a root, in its order *)
  rglob : string -> list string;
  (** [Path.is_dir] *)
  is_dir : string -> bool;
  (** the desktop file at a path, [None] where Gio cannot load one *)
  load_keyfile : string -> option KeyFile;
  (** [re.search(pattern, string)], reduced to the truth value of its
      result; the string argument is [None] or a str *)
  re_search : json -> option string -> Res bool;
  (** [locale.setlocale(locale.LC_ALL, '')] *)
  setlocale : Res unit;
  (** [locale.strxfrm] under the locale so set *)
  strxfrm : string -> string
}.

(** ** Paths *)

Definition path_join (a b : string) : string :=
  if String.eqb a "/" then a ++ b else a ++ "/" ++ b.

Definition CONFIG_relative (env : Env) : string := path_join (script_dir env) "config".
Definition CONFIG_global : string := "/usr/share/rofi-apps/config".
Definition CONFIG_user (env : Env) : string := path_join (home env) ".config/rofi-apps/config".

Definition ENTRIES_PATHS (env : Env) : list string :=
  [ path_join (home env) ".local/share/applications";
    "/usr/local/share/applications";
    "/usr/share/applications" ].

(** [Path(p).name]: the last component of [p], where empty components
    and [.] do not count; [acc] is the last component closed so far and
    [cur] the component being read. *)
Definition close_part (acc cur : string) : string :=
  if String.eqb cur EmptyString || String.eqb cur "." then acc else cur.

Fixpoint last_part (acc cur p : string) : string :=
  match p with
  | EmptyString => close_part acc cur
  | String c p' =>
      if Ascii.eqb c "/" then last_part (close_part acc cur) EmptyString p'
      else last_part acc (cur ++ String c EmptyString) p'
  end.

Definition path_name (p : string) : string := last_part EmptyString EmptyString p.

(** ** class Config *)

Record Config : Type := {
  blacklist : json;
  pinned : json;
  customs : json
}.

(** The [re.sub] call of [Config.__init__], which deletes every match of
    the pattern [//.*?$] in multi-line mode: a match starts at the
    leftmost [//] and, [.] not matching a newline, ends just before the
    next newline or at the end of the text.  [in_comment] tells that the
    scan is inside a match. *)
Fixpoint sub_comments_from (in_comment : bool) (s : string) : string :=
  match s with
  | EmptyString => EmptyString
  | String c rest =>
      if in_comment then
        if Ascii.eqb c "010" then String c (sub_comments_from false rest)
        else sub_comments_from true rest
      else
        match rest with
        | String c' rest' =>
            if Ascii.eqb c "/" && Ascii.eqb c' "/"
            then sub_comments_from true rest'
            else String c (sub_comments_from false rest)
        | EmptyString => String c EmptyString
        end
  end.

Definition sub_comments (s : string) : string := sub_comments_from false s.

Local Open Scope res_scope.

Definition Config_init (env : Env) (path : string) : Res Config :=
  configJson <- read_text env path ;;
  let configJson := sub_comments configJson in
  config <- json_loads env configJson ;;
  b <- py_getitem config "blacklist" ;;
  p <- py_getitem config "pinned" ;;
  c <- py_getitem config "customs" ;;
  Ok {| blacklist := b; pinned := p; customs := c |}.

Definition getBlacklist (config : Config) : json := blacklist config.
Definition getPinned (config : Config) : json := pinned config.
Definition getCustoms (config : Config) : json := customs config.

(** ** class Entry *)

Record Entry : Type := {
  entry : DesktopAppInfo;
  customName : option string
}.

(** [Gio.DesktopAppInfo.new_from_filename]: PyGObject raises TypeError
    where the constructor returns NULL. *)
Definition new_from_filename (env : Env) (path : string) : Res DesktopAppInfo :=
  match load_keyfile env path with
  | Some kf =>
      Ok {| get_nodisplay := kf_nodisplay kf;
            get_name := kf_name kf;
            get_commandline := kf_exec kf;
            get_filename := path;
            get_icon := kf_icon kf |}
  | None => Raise (TypeError "constructor returned NULL")
  end.

Definition Entry_init (env : Env) (path : string) : Res Entry :=
  d <- new_from_filename env path ;;
  Ok {| entry := d; customName := None |}.

Definition getNoDisplay (self : Entry) : bool := get_nodisplay (entry self).

(** [if self.customName:] holds for a non-empty string; the branch
    then reads the global name [customName], which the module never
    defines. *)
Definition getName (self : Entry) : Res string :=
  match customName self with
  | Some (String _ _) => Raise (NameError "name 'customName' is not defined")
  | _ => Ok (get_name (entry self))
  end.

Definition getCommandLine (self : Entry) : option string :=
  get_commandline (entry self).

Definition getPath (self : Entry) : string := get_filename (entry self).

Definition getFilename (self : Entry) : string := path_name (getPath self).

Definition matchRule (env : Env) (self : Entry) (rule : json) : Res bool :=
  n <- py_len rule ;;
  if Nat.eqb n 0 then Ok false
  else
    let match_ := true in
    has_name <- py_contains "name" rule ;;
    match_ <- (if has_name : bool then
                 pat <- py_getitem rule "name" ;;
                 s <- getName self ;;
                 found <- re_search env pat (Some s) ;;
                 Ok (match_ && (if found : bool then true else false))
               else Ok match_) ;;
    has_exec <- py_contains "exec" rule ;;
    match_ <- (if has_exec : bool then
                 pat <- py_getitem rule "exec" ;;
                 found <- re_search env pat (getCommandLine self) ;;
                 Ok (match_ && (if found : bool then true else false))
               else Ok match_) ;;
    Ok match_.

(** The loop of [isBlacklisted]: the first rule that matches decides. *)
Fixpoint any_rule_matches (env : Env) (self : Entry) (rules : list json) : Res bool :=
  match rules with
  | [] => Ok false
  | rule :: rest =>
      m <- matchRule env self rule ;;
      if m : bool then Ok true else any_rule_matches env self rest
  end.

Definition isBlacklisted (env : Env) (self : Entry) (config : Config) : Res bool :=
  rules <- py_iter (getBlacklist config) ;;
  any_rule_matches env self rules.

(** The loop of [indexOfPinned], counting from [i]. *)
Fixpoint index_of_match (env : Env) (self : Entry) (i : Z) (rules : list json) : Res Z :=
  match rules with
  | [] => Ok (-1)%Z
  | rule :: rest =>
      m <- matchRule env self rule ;;
      if m : bool then Ok i else index_of_match env self (i + 1)%Z rest
  end.

Definition indexOfPinned (env : Env) (self : Entry) (config : Config) : Res Z :=
  rules <- py_iter (getPinned config) ;;
  index_of_match env self 0%Z rules.

(** [getIcon] without its printing: the lines it sends to stderr and
    what it returns. *)
Definition getIcon_result (self : Entry) : list string * Res (option string) :=
  match get_icon (entry self) with
  | None => ([], Ok None)
  | Some (FileIcon (Some f)) => ([], Ok (get_path f))
  | Some (FileIcon None) =>
      let e := AttributeError "'NoneType' object has no attribute 'get_path'" in
      ([ "[!] AttributeError while reading icon file of " ++ getFilename self ++ ".";
         "[!] " ++ exn_str e ++ "." ],
       Ok None)
  | Some (ThemedIcon (n :: _)) => ([], Ok (Some n))
  | Some (ThemedIcon []) => ([], Raise (IndexError "list index out of range"))
  | Some OtherIcon => ([], Ok None)
  end.

(** ** Running with output *)

(** The two streams, each a list of printed lines, oldest first. *)
Record IO : Type := {
  stdout : list string;
  stderr : list string
}.

Definition M (A : Type) : Type := IO -> Res A * IO.

Definition ret {A} (a : A) : M A := fun io => (Ok a, io).

Definition bind {A B} (c : M A) (k : A -> M B) : M B :=
  fun io =>
    match c io with
    | (Ok a, io') => k a io'
    | (Raise e, io') => (Raise e, io')
    end.

Definition lift {A} (r : Res A) : M A := fun io => (r, io).

Definition print_out (line : string) : M unit :=
  fun io => (Ok tt, {| stdout := (stdout io ++ [line])%list; stderr := stderr io |}).

Definition print_err (line : string) : M unit :=
  fun io => (Ok tt, {| stdout := stdout io; stderr := (stderr io ++ [line])%list |}).

Declare Scope io_scope.
Delimit Scope io_scope with io.
Notation "x <- c ;; k" := (bind c (fun x => k))
  (at level 100, c at next level, right associativity) : io_scope.
Notation "c ;;; k" := (bind c (fun _ => k))
  (at level 100, right associativity) : io_scope.

Local Open Scope io_scope.

Fixpoint print_err_all (lines : list string) : M unit :=
  match lines with
  | [] => ret tt
  | l :: rest => print_err l ;;; print_err_all rest
  end.

Definition getIcon (self : Entry) : M (option string) :=
  print_err_all (fst (getIcon_result self)) ;;;
  lift (snd (getIcon_result self)).

(** How an f-string renders [None] or a str. *)
Definition format_opt (v : option string) : string :=
  match v with
  | Some s => s
  | None => "None"
  end.

Definition NUL : string := String "000" EmptyString.
Definition US : string := String "031" EmptyString.

(** The line [main] prints for an entry. *)
Definition record (name : string) (icon : option string) (path : string) : string :=
  name ++ NUL ++ "icon" ++ US ++ format_opt icon ++ US ++ "info" ++ US ++ path.

(** ** main *)

Definition load_config (env : Env) : M Config :=
  if path_exists env (CONFIG_user env) then lift (Config_init env (CONFIG_user env))
  else if path_exists env CONFIG_global then lift (Config_init env CONFIG_global)
  else if path_exists env (CONFIG_relative env) then lift (Config_init env (CONFIG_relative env))
  else
    print_err "[!] Config not found." ;;;
    lift (Raise (SystemExit 1)).

(** The two lists [main] fills: [entriesPinned] and [entriesSorted]. *)
Definition Lists : Type := (list Entry * list Entry)%type.

(** The body of the [try] for one path: the lists afterwards. *)
Definition try_entry (env : Env) (config : Config) (st : Lists) (entryPath : string)
  : Res Lists :=
  let '(entriesPinned, entriesSorted) := st in
  (e <- Entry_init env entryPath ;;
   if getNoDisplay e then Ok st
   else
     b <- isBlacklisted env e config ;;
     if b : bool then Ok st
     else if existsb (String.eqb (getFilename e))
                     (map getFilename (entriesPinned ++ entriesSorted)%list)
          then Ok st
          else Ok (entriesPinned, (entriesSorted ++ [e])%list))%res.

(** One turn of the inner loop. *)
Definition process_path (env : Env) (config : Config) (st : Lists) (entryPath : string)
  : M Lists :=
  if is_dir env entryPath then ret st
  else
    match try_entry env config st entryPath with
    | Ok st' => ret st'
    | Raise (TypeError msg) =>
        print_err ("[@] TypeError while processing " ++ entryPath
                   ++ ". Probably not a desktop entry.") ;;;
        print_err ("[@] " ++ exn_str (TypeError msg)) ;;;
        ret st
    | Raise e => lift (Raise e)
    end.

Fixpoint foldM {A B} (f : A -> B -> M A) (a : A) (l : list B) : M A :=
  match l with
  | [] => ret a
  | x :: rest => a' <- f a x ;; foldM f a' rest
  end.

Definition process_root (env : Env) (config : Config) (st : Lists) (entriesPaths : string)
  : M Lists :=
  foldM (process_path env config) st (rglob env entriesPaths).

Definition collect (env : Env) (config : Config) : M Lists :=
  foldM (process_root env config) ([], []) (ENTRIES_PATHS env).

(** [list.sort(key=...)]: Python computes the keys first, then sorts
    stably, comparing keys with [<] only.  The result of a stable sort
    does not depend on the algorithm ([stable_sort_is_list_sort] below),
    so insertion stands for it here. *)
Fixpoint insert_by {A} (key : A -> string) (x : A) (l : list A) : list A :=
  match l with
  | [] => [x]
  | y :: rest =>
      if String.ltb (key y) (key x) then y :: insert_by key x rest
      else x :: l
  end.

Fixpoint list_sort {A} (key : A -> string) (l : list A) : list A :=
  match l with
  | [] => []
  | x :: rest => insert_by key x (list_sort key rest)
  end.

Fixpoint mapR {A B} (f : A -> Res B) (l : list A) : Res (list B) :=
  match l with
  | [] => Ok []
  | x :: rest => (y <- f x ;; ys <- mapR f rest ;; Ok (y :: ys))%res
  end.

Definition sort_key (env : Env) (e : Entry) : Res string :=
  (n <- getName e ;; Ok (strxfrm env n))%res.

Definition sort_entries (env : Env) (entries : list Entry) : Res (list Entry) :=
  (keys <- mapR (sort_key env) entries ;;
   Ok (map snd (list_sort fst (combine keys entries))))%res.

(** [if entry:] an [Entry] defines neither [__bool__] nor [__len__]. *)
Definition truthy (e : Entry) : bool := true.

Definition print_entry (e : Entry) : M unit :=
  if truthy e then
    name <- lift (getName e) ;;
    icon <- getIcon e ;;
    print_out (record name icon (getPath e))
  else ret tt.

Fixpoint emit (entries : list Entry) : M unit :=
  match entries with
  | [] => ret tt
  | e :: rest => print_entry e ;;; emit rest
  end.

Definition main (env : Env) : M unit :=
  config <- load_config env ;;
  lists <- collect env config ;;
  let '(entriesPinned, entriesSorted) := lists in
  lift (setlocale env) ;;;
  entriesSorted <- lift (sort_entries env entriesSorted) ;;
  let entries := (entriesPinned ++ entriesSorted)%list in
  emit entries.

(** ** A concrete environment, for the examples *)

Fixpoint lookup {V} (k : string) (t : list (string * V)) : option V :=
  match t with
  | [] => None
  | (k', v) :: rest => if String.eqb k k' then Some v else lookup k rest
  end.

(** [re.search] on the patterns that hold no special character, with
    an optional leading [^]: a search for the text itself, anywhere in
    the string or, after [^], at its start. *)
Definition re_search_literal (pat : json) (s : option string) : Res bool :=
  match pat, s with
  | JStr (String "^" p), Some str => Ok (String.prefix p str)
  | JStr p, Some str => Ok (str_in p str)
  | JStr _, None => Raise (TypeError "expected string or bytes-like object, got 'NoneType'")
  | _, _ => Raise (TypeError "first argument must be string or compiled pattern")
  end.

(** An environment given by tables: the text of each file that can be
    read, the document [json.loads] makes of a text, the listing of each
    root and the desktop file at each path.  The locale is the C locale,
    where [strxfrm] changes nothing. *)
Definition table_env (texts : list (string * string)) (docs : list (string * json))
  (tree : list (string * list string)) (dirs : list string)
  (files : list (string * KeyFile)) : Env :=
  {| home := "/home/u";
     script_dir := "/opt/rofi-apps";
     path_exists := fun p => match lookup p texts with Some _ => true | None => false end;
     read_text := fun p =>
       match lookup p texts with
       | Some t => Ok t
       | None => Raise (OSError ("[Errno 2] No such file or directory: '" ++ p ++ "'"))
       end;
     json_loads := fun t =>
       match lookup t docs with
       | Some d => Ok d
       | None => Raise (JSONDecodeError "Expecting value: line 1 column 1 (char 0)")
       end;
     rglob := fun root => match lookup root tree with Some l => l | None => [] end;
     is_dir := fun p => existsb (String.eqb p) dirs;
     load_keyfile := fun p => lookup p files;
     re_search := re_search_literal;
     setlocale := Ok tt;
     strxfrm := fun s => s |}.

Definition DQ : string := String "034" EmptyString.

(** [s] between double quotes. *)
Definition quoted (s : string) : string := DQ ++ s ++ DQ.

Definition empty_config_doc : json :=
  JObj [("blacklist", JArr []); ("pinned", JArr []); ("customs", JArr [])].

Definition empty_config_json : string :=
  "{" ++ quoted "blacklist" ++ ": [], " ++ quoted "pinned" ++ ": [], "
      ++ quoted "customs" ++ ": []}".

(** The same document, with a comment after it. *)
Definition empty_config_text : string := empty_config_json ++ " // nothing listed".

Definition user_config : string := "/home/u/.config/rofi-apps/config".
Definition user_apps : string := "/home/u/.local/share/applications".
Definition system_apps : string := "/usr/share/applications".

Definition plain_keyfile (name : string) (exec : option string) : KeyFile :=
  {| kf_nodisplay := false; kf_name := name; kf_exec := exec; kf_icon := None |}.

Definition entry_of (path : string) (kf : KeyFile) (custom : option string) : Entry :=
  {| entry := {| get_nodisplay := kf_nodisplay kf;
                 get_name := kf_name kf;
                 get_commandline := kf_exec kf;
                 get_filename := path;
                 get_icon := kf_icon kf |};
     customName := custom |}.

Definition bare_env : Env := table_env [] [] [] [] [].

Definition visible_tool : Entry :=
  entry_of "/usr/share/applications/tool.desktop"
           (plain_keyfile "Visible Tool" (Some "tool --gui")) None.

Definition visible_tool_other_exec : Entry :=
  entry_of "/usr/share/applications/tool.desktop"
           (plain_keyfile "Visible Tool" (Some "/opt/other/bin")) None.

Definition renamed_tool : Entry :=
  entry_of "/usr/share/applications/tool.desktop"
           (plain_keyfile "Visible Tool" (Some "tool --gui")) (Some "My Tool").

(** A rule whose only key is none of the two the matcher reads. *)
Definition rule_unrecognized : json := JObj [("title", JStr "Tool")].

(** A document lacks a field when it is not an object or has no such key. *)
Definition field_absent (k : string) (doc : json) : Prop :=
  match doc with
  | JObj kvs => assoc k kvs = None
  | _ => True
  end.

Definition LF : string := String "010" EmptyString.

(** A configuration whose one blacklist rule holds a URL: the two
    slashes stand inside a JSON string. *)
Definition url_config_head : string :=
  "{" ++ quoted "blacklist" ++ ": [{" ++ quoted "exec" ++ ": " ++ DQ ++ "https:".

Definition url_config_tail : string :=
  "example.org" ++ DQ ++ "}], " ++ quoted "pinned" ++ ": [], "
    ++ quoted "customs" ++ ": []}".

Definition url_config_text : string := url_config_head ++ "//" ++ url_config_tail.

Definition url_env : Env :=
  table_env [(user_config, url_config_text)] [] [] [] [].

(** ** Notions used to state the results *)

(** Every path the two loops of [main] meet, in order. *)
Definition discovered (env : Env) : list string :=
  List.concat (map (rglob env) (ENTRIES_PATHS env)).

(** The path is a file that loads as a desktop entry, is not hidden and
    is not blacklisted: it reaches the duplicate check. *)
Definition passes (env : Env) (config : Config) (p : string) : bool :=
  negb (is_dir env p) &&
  match Entry_init env p with
  | Ok e =>
      negb (getNoDisplay e) &&
      match isBlacklisted env e config with
      | Ok false => true
      | _ => false
      end
  | Raise _ => false
  end.

(** Among [files], the path of [e] is the first with its file name
    that [passes]. *)
Definition first_passing (env : Env) (config : Config) (files : list string)
  (e : Entry) : Prop :=
  exists before after,
    files = (before ++ getPath e :: after)%list /\
    passes env config (getPath e) = true /\
    forall q, In q before -> passes env config q = true ->
              path_name q <> getFilename e.

(** Among [files], the path of [e] is the first with its file name. *)
Definition first_seen (files : list string) (e : Entry) : Prop :=
  exists before after,
    files = (before ++ getPath e :: after)%list /\
    forall q, In q before -> path_name q <> getFilename e.

(** What [getIcon] returns, [None] also where it raises. *)
Definition icon_value (e : Entry) : option string :=
  match snd (getIcon_result e) with
  | Ok i => i
  | Raise _ => None
  end.

(** The line printed for an entry without custom name. *)
Definition record_of (e : Entry) : string :=
  record (get_name (entry e)) (icon_value e) (getPath e).

(** The sort key of an entry without custom name. *)
Definition name_key (env : Env) (e : Entry) : string :=
  strxfrm env (get_name (entry e)).

Definition io0 : IO := {| stdout := []; stderr := [] |}.

(** An environment with the empty configuration at the user path. *)
Definition apps_env (tree : list (string * list string))
  (files : list (string * KeyFile)) : Env :=
  table_env [(user_config, empty_config_text)]
            [(empty_config_json ++ " ", empty_config_doc)]
            tree [] files.


(** What holds of the two lists once the paths [files] are processed. *)
Definition collected (env : Env) (config : Config) (files : list string)
  (st : Lists) : Prop :=
  fst st = [] /\
  NoDup (map getFilename (snd st)) /\
  Forall (fun e => Entry_init env (getPath e) = Ok e /\
                   first_passing env config files e) (snd st) /\
  (forall q, In q files -> passes env config q = true ->
             In (path_name q) (map getFilename (snd st))).

(** The order of two sort keys, as Python compares two str. *)
Definition key_le (a b : string) : Prop := String.leb a b = true.

(** The order of two items by their keys. *)
Definition le_by {A} (key : A -> string) (x y : A) : Prop :=
  key_le (key x) (key y).

(** *** Example file systems *)

Definition mimeinfo_cache : string := "/usr/share/applications/mimeinfo.cache".
Definition system_tool_path : string := "/usr/share/applications/tool.desktop".
Definition user_tool_path : string := "/home/u/.local/share/applications/tool.desktop".
Definition zed_path : string := "/usr/share/applications/zed.desktop".
Definition calc_path : string := "/usr/share/applications/calc.desktop".

(** One file under the system root, which is no desktop entry. *)
Definition broken_env : Env := apps_env [(system_apps, [mimeinfo_cache])] [].


Definition system_tool : Entry :=
  entry_of system_tool_path (plain_keyfile "Visible Tool" (Some "tool --gui")) None.

(** The user's copy of [tool.desktop] is hidden, the system's is not. *)
Definition hidden_keyfile : KeyFile :=
  {| kf_nodisplay := true; kf_name := "Visible Tool";
     kf_exec := Some "tool --gui"; kf_icon := None |}.

Definition shadow_env : Env :=
  apps_env [(user_apps, [user_tool_path]); (system_apps, [system_tool_path])]
           [(user_tool_path, hidden_keyfile);
            (system_tool_path, plain_keyfile "Visible Tool" (Some "tool --gui"))].

(** Two desktop entries with icons, met in reverse alphabetical order,
    and a file that is no desktop entry. *)
Definition zed_keyfile : KeyFile :=
  {| kf_nodisplay := false; kf_name := "Zed"; kf_exec := Some "zed %U";
     kf_icon := Some (ThemedIcon ["zed"]) |}.

Definition calc_keyfile : KeyFile :=
  {| kf_nodisplay := false; kf_name := "Calculator"; kf_exec := Some "calc";
     kf_icon := Some (FileIcon (Some {| get_path := Some "/opt/calc/calc.png" |})) |}.

Definition two_apps_env : Env :=
  apps_env [(system_apps, [zed_path; mimeinfo_cache; calc_path])]
           [(zed_path, zed_keyfile); (calc_path, calc_keyfile)].

Definition zed : Entry := entry_of zed_path zed_keyfile None.
Definition calc : Entry := entry_of calc_path calc_keyfile None.

(** The number of newlines of a text. *)
Fixpoint count_lf (s : string) : nat :=
  match s with
  | EmptyString => 0
  | String c rest => (if Ascii.eqb c "010" then 1 else 0) + count_lf rest
  end.

(** The outcome of a check seen as a truth value: an index that is not
    the sentinel. *)
Definition is_index (i : Z) : bool := (0 <=? i)%Z.

(** Two rules for the examples. *)
Definition rule_hidden : json := JObj [("name", JStr "^Hidden")].
Definition rule_tool_gui : json :=
  JObj [("name", JStr "Tool"); ("exec", JStr "--gui")].

Definition config_of (rules : json) : Config :=
  {| blacklist := rules; pinned := rules; customs := JArr [] |}.

(** The same configuration, with one blacklist rule on the name. *)
Definition hidden_config_doc : json :=
  JObj [("blacklist", JArr [rule_hidden]); ("pinned", JArr []); ("customs", JArr [])].

Definition hidden_tool_path : string := "/usr/share/applications/hidden.desktop".

(** Two desktop entries, one of which the blacklist names. *)
Definition blacklist_env : Env :=
  table_env [(user_config, empty_config_text)]
            [(empty_config_json ++ " ", hidden_config_doc)]
            [(system_apps, [hidden_tool_path; system_tool_path])] []
            [(hidden_tool_path, plain_keyfile "Hidden Tool" (Some "hidden"));
             (system_tool_path, plain_keyfile "Visible Tool" (Some "tool --gui"))].

(** The user's configuration is cut short; a sound one stands at the
    system path. *)
Definition fallback_env : Env :=
  table_env [(user_config, url_config_text); (CONFIG_global, empty_config_json)]
            [(empty_config_json, empty_config_doc)]
            [(system_apps, [system_tool_path])] []
            [(system_tool_path, plain_keyfile "Visible Tool" (Some "tool --gui"))].

(** The blacklist is [null]. *)
Definition null_blacklist_env : Env :=
  table_env [(user_config, empty_config_json)]
            [(empty_config_json,
              JObj [("blacklist", JNull); ("pinned", JArr []); ("customs", JArr [])])]
            [(system_apps, [system_tool_path])] []
            [(system_tool_path, plain_keyfile "Visible Tool" (Some "tool --gui"))].

(** An entry whose icon is a file icon without file. *)
Definition broken_icon_tool : Entry :=
  entry_of system_tool_path
    {| kf_nodisplay := false; kf_name := "Visible Tool";
       kf_exec := Some "tool --gui"; kf_icon := Some (FileIcon None) |} None.

(** [re.search] as [re_search_literal], and raising [re.error] on the
    pattern made of one opening parenthesis. *)
Definition re_search_paren (pat : json) (s : option string) : Res bool :=
  match pat with
  | JStr "(" => Raise (ReError "missing ), unterminated subpattern at position 0")
  | _ => re_search_literal pat s
  end.

(** The blacklist holds a pattern that does not compile. *)
Definition bad_pattern_env : Env :=
  {| home := "/home/u";
     script_dir := "/opt/rofi-apps";
     path_exists := fun p => String.eqb p user_config;
     read_text := fun _ => Ok empty_config_json;
     json_loads := fun _ =>
       Ok (JObj [("blacklist", JArr [JObj [("name", JStr "(")]]);
                 ("pinned", JArr []); ("customs", JArr [])]);
     rglob := fun root => if String.eqb root system_apps then [system_tool_path] else [];
     is_dir := fun _ => false;
     load_keyfile := fun _ => Some (plain_keyfile "Visible Tool" (Some "tool --gui"));
     re_search := re_search_paren;
     setlocale := Ok tt;
     strxfrm := fun s => s |}.

(** A desktop entry without Exec line, and a blacklist rule on exec. *)
Definition no_exec_path : string := "/usr/share/applications/service.desktop".

Definition rule_exec : json := JObj [("exec", JStr "steam")].

Definition no_exec_env : Env :=
  table_env [] [] [(system_apps, [no_exec_path])] []
            [(no_exec_path, plain_keyfile "Service" None)].



(** * Results *)

(** ** Strings *)

Lemma prefix_cons : forall a s1 b s2,
  String.prefix (String a s1) (String b s2)
  = if Ascii.eqb a b then String.prefix s1 s2 else false.
Proof.
  intros a s1 b s2. cbn [String.prefix].
  destruct (ascii_dec a b) as [->|Hne].
  - rewrite Ascii.eqb_refl. reflexivity.
  - apply Ascii.eqb_neq in Hne. rewrite Hne. reflexivity.
Qed.

Lemma prefix_nil : forall s, String.prefix EmptyString s = true.
Proof. intros [|c s]; reflexivity. Qed.

Lemma prefix_append : forall k s,
  String.prefix k s = true <-> exists b, s = k ++ b.
Proof.
  induction k as [|c k IH]; intros s.
  - rewrite prefix_nil. split; [intros _; exists s; reflexivity | reflexivity].
  - destruct s as [|c' s].
    + split; [discriminate | intros [b Hb]; discriminate].
    + rewrite prefix_cons. destruct (Ascii.eqb c c') eqn:E.
      * apply Ascii.eqb_eq in E. subst c'. rewrite IH. split.
        -- intros [b ->]. exists b. reflexivity.
        -- intros [b Hb]. injection Hb as ->. exists b. reflexivity.
      * apply Ascii.eqb_neq in E. split; [discriminate|].
        intros [b Hb]. injection Hb as -> _. congruence.
Qed.

(** [str_in k s] holds exactly when [k] stands somewhere in [s]. *)
Lemma str_in_occurs : forall k s,
  str_in k s = true <-> exists a b, s = a ++ k ++ b.
Proof.
  intros k s; induction s as [|c s IH]; cbn [str_in].
  - rewrite orb_false_r, prefix_append. split.
    + intros [b Hb]. exists EmptyString, b. exact Hb.
    + intros (a & b & H). destruct a; [exists b; exact H|discriminate].
  - rewrite orb_true_iff, prefix_append, IH. split.
    + intros [[b Hb] | (a & b & ->)].
      * exists EmptyString, b. exact Hb.
      * exists (String c a), b. reflexivity.
    + intros (a & b & H). destruct a as [|c' a].
      * left. exists b. exact H.
      * right. injection H as -> ->. exists a, b. reflexivity.
Qed.

Lemma length_append : forall a b,
  String.length (a ++ b) = String.length a + String.length b.
Proof.
  induction a as [|c a IH]; intros b; simpl; [reflexivity|].
  rewrite IH. reflexivity.
Qed.

Lemma append_assoc : forall a b c : string, (a ++ b) ++ c = a ++ b ++ c.
Proof.
  induction a as [|x a IH]; intros b c; simpl; [reflexivity|].
  rewrite IH. reflexivity.
Qed.


(** ** Rule matching *)

(** C1, as stated, fails: a rule with one key that is neither name nor
    exec matches. *)
Lemma matchRule_unrecognized_key_cex :
  py_contains "name" rule_unrecognized = Ok false /\
  py_contains "exec" rule_unrecognized = Ok false /\
  matchRule bare_env visible_tool rule_unrecognized = Ok true.
Proof. repeat split; reflexivity. Qed.

(** C1, amended: a rule mapping with neither the name nor the exec key
    matches no entry when it has zero keys, and matches every entry when
    it has at least one key. *)
Theorem matchRule_no_recognized_keys :
  forall env self kvs,
    has_key "name" kvs = false ->
    has_key "exec" kvs = false ->
    matchRule env self (JObj kvs) = Ok (negb (Nat.eqb (List.length kvs) 0)).
Proof.
  intros env self kvs Hn He. unfold matchRule. simpl.
  rewrite Hn, He. simpl.
  destruct (Nat.eqb (List.length kvs) 0); reflexivity.
Qed.

Lemma matchRule_no_recognized_keys_witness :
  matchRule bare_env visible_tool (JObj []) = Ok false.
Proof.
  exact (matchRule_no_recognized_keys bare_env visible_tool [] eq_refl eq_refl).
Defined.

(** C4: with a custom name set, [getName] does not return it: it raises
    NameError, for every entry and every non-empty custom name. *)
Theorem getName_custom_raises :
  forall d c s,
    getName {| entry := d; customName := Some (String c s) |}
    = Raise (NameError "name 'customName' is not defined").
Proof. reflexivity. Qed.

Lemma getName_default : forall self,
  customName self = None -> getName self = Ok (get_name (entry self)).
Proof. intros self H. unfold getName. rewrite H. reflexivity. Qed.

Example getName_renamed_tool :
  getName renamed_tool = Raise (NameError "name 'customName' is not defined")
  /\ getName visible_tool = Ok "Visible Tool".
Proof. split; reflexivity. Qed.

(** C6: for a rule whose only key is name, [matchRule] is the search of
    its pattern in the display name, and two entries with the same
    display name get the same answer whatever their command lines. *)
Theorem matchRule_name_only :
  forall env pat self self',
    get_name (entry self') = get_name (entry self) ->
    customName self' = customName self ->
    matchRule env self (JObj [("name", pat)])
    = (s <- getName self ;; re_search env pat (Some s))%res
    /\ matchRule env self' (JObj [("name", pat)])
       = matchRule env self (JObj [("name", pat)]).
Proof.
  intros env pat self self' Hname Hcustom.
  assert (Hm : forall e, matchRule env e (JObj [("name", pat)])
                         = (s <- getName e ;; re_search env pat (Some s))%res).
  { intros e. unfold matchRule. simpl.
    destruct (getName e) as [s|x]; simpl; [|reflexivity].
    destruct (re_search env pat (Some s)) as [[|]|x]; reflexivity. }
  split; [apply Hm|].
  rewrite !Hm. unfold getName. rewrite Hname, Hcustom. reflexivity.
Qed.

Lemma matchRule_name_only_witness :
  matchRule bare_env visible_tool_other_exec (JObj [("name", JStr "Tool")])
  = matchRule bare_env visible_tool (JObj [("name", JStr "Tool")]).
Proof.
  exact (proj2 (matchRule_name_only bare_env (JStr "Tool") visible_tool
                  visible_tool_other_exec eq_refl eq_refl)).
Defined.

(** The search is not anchored: the pattern is found inside the name. *)
Example matchRule_name_inside :
  matchRule bare_env visible_tool (JObj [("name", JStr "ible To")]) = Ok true
  /\ matchRule bare_env visible_tool (JObj [("name", JStr "Hidden")]) = Ok false.
Proof. split; reflexivity. Qed.

(** ** Loading the configuration *)

Lemma py_getitem_raises_iff : forall doc k,
  (exists e, py_getitem doc k = Raise e) <-> field_absent k doc.
Proof.
  intros doc k; destruct doc; simpl; split; intros H;
    try exact I; try (eexists; reflexivity).
  - destruct H as [e H]. destruct (assoc k kvs); [discriminate | reflexivity].
  - rewrite H. eexists; reflexivity.
Qed.

(** C7: [Config.__init__] raises exactly when the file cannot be read,
    or the text left after comment stripping is refused by the JSON
    parser, or the parsed document lacks one of blacklist, pinned and
    customs; when it returns, the three fields are those of the
    document. *)
Theorem Config_init_fails_iff :
  forall env path,
    ((exists e, Config_init env path = Raise e) <->
     ((exists e, read_text env path = Raise e) \/
      (exists text e, read_text env path = Ok text /\
                      json_loads env (sub_comments text) = Raise e) \/
      (exists text doc, read_text env path = Ok text /\
                        json_loads env (sub_comments text) = Ok doc /\
                        (field_absent "blacklist" doc \/
                         field_absent "pinned" doc \/
                         field_absent "customs" doc))))
    /\ (forall cfg, Config_init env path = Ok cfg ->
        exists text doc, read_text env path = Ok text /\
                         json_loads env (sub_comments text) = Ok doc /\
                         py_getitem doc "blacklist" = Ok (blacklist cfg) /\
                         py_getitem doc "pinned" = Ok (pinned cfg) /\
                         py_getitem doc "customs" = Ok (customs cfg)).
Proof.
  intros env path. unfold Config_init.
  destruct (read_text env path) as [text|e0] eqn:Er; simpl.
  2:{ split.
      - split; [intros _; left; eauto | intros _; eauto].
      - intros cfg H; discriminate. }
  destruct (json_loads env (sub_comments text)) as [doc|e1] eqn:Ej; simpl.
  2:{ split.
      - split; [intros _; right; left; eauto | intros _; eauto].
      - intros cfg H; discriminate. }
  destruct (py_getitem doc "blacklist") as [b|eb] eqn:Eb; simpl.
  2:{ split.
      - split; [intros _ | intros _; eauto].
        right; right. exists text, doc. repeat split; auto.
        left. apply py_getitem_raises_iff; eauto.
      - intros cfg H; discriminate. }
  destruct (py_getitem doc "pinned") as [p|ep] eqn:Ep; simpl.
  2:{ split.
      - split; [intros _ | intros _; eauto].
        right; right. exists text, doc. repeat split; auto.
        right; left. apply py_getitem_raises_iff; eauto.
      - intros cfg H; discriminate. }
  destruct (py_getitem doc "customs") as [c|ec] eqn:Ec; simpl.
  2:{ split.
      - split; [intros _ | intros _; eauto].
        right; right. exists text, doc. repeat split; auto.
        right; right. apply py_getitem_raises_iff; eauto.
      - intros cfg H; discriminate. }
  split.
  - split.
    + intros [e H]; discriminate.
    + intros [[e H] | [(t & e & H & H') | (t & d & H & H' & Habs)]];
        try discriminate.
      * injection H as <-. rewrite Ej in H'. discriminate.
      * injection H as <-. rewrite Ej in H'. injection H' as <-.
        destruct Habs as [Ha | [Ha | Ha]];
          apply py_getitem_raises_iff in Ha; destruct Ha as [e Ha]; congruence.
  - intros cfg H. injection H as <-. exists text, doc. simpl. auto.
Qed.

Lemma Config_init_fails_iff_witness :
  exists e, Config_init url_env user_config = Raise e.
Proof.
  apply (proj1 (Config_init_fails_iff url_env user_config)).
  right. left. exists url_config_text. eexists. split; reflexivity.
Defined.

(** ** Comment stripping *)

Lemma sub_comments_from_comment : forall b rest,
  str_in LF b = false ->
  sub_comments_from true (b ++ rest) = sub_comments_from true rest.
Proof.
  induction b as [|c b IH]; intros rest H; simpl in *; [reflexivity|].
  destruct (Ascii.eqb c "010") eqn:Ec.
  - apply Ascii.eqb_eq in Ec. subst c. simpl in H.
    destruct b; discriminate.
  - apply IH. apply orb_false_iff in H. apply H.
Qed.

Lemma sub_comments_from_eol : forall rest,
  rest = EmptyString \/ (exists r, rest = LF ++ r) ->
  sub_comments_from true rest = sub_comments rest.
Proof.
  intros rest [-> | [r ->]]; [reflexivity|].
  unfold sub_comments. simpl. destruct r; reflexivity.
Qed.

Lemma sub_comments_keep : forall c s,
  String.prefix "//" (String c s) = false -> s <> EmptyString ->
  sub_comments_from false (String c s) = String c (sub_comments_from false s).
Proof.
  intros c s H Hs. destruct s as [|c' s']; [congruence|].
  simpl in *.
  destruct (Ascii.eqb c "/") eqn:E1; simpl; [|reflexivity].
  destruct (Ascii.eqb c' "/") eqn:E2; simpl; [|reflexivity].
  apply Ascii.eqb_eq in E1, E2. subst.
  simpl in H. destruct s'; discriminate.
Qed.

Lemma prefix_slashes_cons : forall c a t,
  String.prefix "//" (String c (a ++ "/")) = false ->
  String.prefix "//" (String c (a ++ "//" ++ t)) = false.
Proof.
  intros c a t H. rewrite prefix_cons in *.
  destruct (Ascii.eqb "/" c); [|reflexivity].
  destruct a as [|c' a']; cbn [String.append] in *.
  - rewrite prefix_cons in H. discriminate.
  - rewrite prefix_cons in *.
    destruct (Ascii.eqb "/" c'); [|reflexivity].
    destruct (a' ++ "/"); discriminate.
Qed.

Lemma sub_comments_until_slashes : forall a t,
  str_in "//" (a ++ "/") = false ->
  sub_comments_from false (a ++ "//" ++ t) = a ++ sub_comments_from true t.
Proof.
  induction a as [|c a IH]; intros t H.
  - reflexivity.
  - change (String c a ++ "/") with (String c (a ++ "/")) in H.
    simpl str_in in H. apply orb_false_iff in H. destruct H as [Hp Hin].
    change (String c a ++ "//" ++ t) with (String c (a ++ "//" ++ t)).
    rewrite sub_comments_keep.
    + rewrite IH by exact Hin. reflexivity.
    + apply prefix_slashes_cons. exact Hp.
    + destruct a; discriminate.
Qed.

Lemma sub_comments_from_length : forall n s c,
  String.length s <= n ->
  String.length (sub_comments_from c s) <= String.length s.
Proof.
  induction n as [|n IH]; intros s c Hn.
  - destruct s; simpl in *; [lia | lia].
  - destruct s as [|x s]; simpl; [lia|].
    simpl in Hn. destruct c.
    + destruct (Ascii.eqb x "010"); simpl.
      * specialize (IH s false). lia.
      * specialize (IH s true). lia.
    + destruct s as [|y s']; simpl; [lia|].
      destruct (Ascii.eqb x "/" && Ascii.eqb y "/").
      * simpl in Hn. specialize (IH s' true). lia.
      * specialize (IH (String y s') false). simpl in *. lia.
Qed.

(** C10: wherever the first [//] of a text stands, inside a JSON string
    or not, the text from there to the end of the line is removed; the
    text is shorter afterwards, and the JSON parser is given what is
    left. *)
Theorem sub_comments_cuts_anywhere :
  forall a b rest,
    str_in "//" (a ++ "/") = false ->
    str_in LF b = false ->
    rest = EmptyString \/ (exists r, rest = LF ++ r) ->
    sub_comments (a ++ "//" ++ b ++ rest) = a ++ sub_comments rest
    /\ String.length (sub_comments (a ++ "//" ++ b ++ rest))
       < String.length (a ++ "//" ++ b ++ rest)
    /\ forall env path,
         read_text env path = Ok (a ++ "//" ++ b ++ rest) ->
         Config_init env path
         = (config <- json_loads env (a ++ sub_comments rest) ;;
            b <- py_getitem config "blacklist" ;;
            p <- py_getitem config "pinned" ;;
            c <- py_getitem config "customs" ;;
            Ok {| blacklist := b; pinned := p; customs := c |})%res.
Proof.
  intros a b rest Ha Hb Hrest.
  assert (E : sub_comments (a ++ "//" ++ b ++ rest) = a ++ sub_comments rest).
  { unfold sub_comments at 1.
    rewrite sub_comments_until_slashes by exact Ha.
    rewrite sub_comments_from_comment by exact Hb.
    rewrite sub_comments_from_eol by exact Hrest. reflexivity. }
  split; [exact E|]. split.
  - rewrite E, !length_append.
    pose proof (sub_comments_from_length (String.length rest) rest false
                  (Nat.le_refl _)) as Hlen.
    unfold sub_comments. simpl. lia.
  - intros env path Hr. unfold Config_init. rewrite Hr. cbn [rbind]. rewrite E.
    reflexivity.
Qed.

Lemma sub_comments_cuts_anywhere_witness :
  sub_comments url_config_text = url_config_head
  /\ exists e, Config_init url_env user_config = Raise (JSONDecodeError e).
Proof.
  destruct (sub_comments_cuts_anywhere url_config_head url_config_tail EmptyString
              eq_refl eq_refl (or_introl eq_refl)) as [E _].
  split.
  - exact E.
  - eexists. reflexivity.
Defined.

(** ** The monad of [main] *)

Lemma foldM_app : forall {A B} (f : A -> B -> M A) l1 l2 a io,
  foldM f a (l1 ++ l2)%list io
  = match foldM f a l1 io with
    | (Ok a', io') => foldM f a' l2 io'
    | (Raise e, io') => (Raise e, io')
    end.
Proof.
  intros A B f l1; induction l1 as [|x l1 IH]; intros l2 a io; simpl.
  - reflexivity.
  - unfold bind. destruct (f a x io) as [[a'|e] io1]; [apply IH | reflexivity].
Qed.

Lemma collect_flat : forall env config io,
  collect env config io
  = foldM (process_path env config) ([], []) (discovered env) io.
Proof.
  intros env config io. unfold collect, discovered.
  generalize (ENTRIES_PATHS env) as roots. generalize (([], []) : Lists) as st.
  intros st roots; revert st io.
  induction roots as [|r roots IH]; intros st io; simpl; [reflexivity|].
  rewrite foldM_app. unfold bind, process_root.
  destruct (foldM (process_path env config) st (rglob env r) io) as [[a'|e] io1];
    [apply IH | reflexivity].
Qed.

Lemma foldM_stdout : forall {A B} (f : A -> B -> M A),
  (forall a x io r io', f a x io = (r, io') -> stdout io' = stdout io) ->
  forall l a io r io', foldM f a l io = (r, io') -> stdout io' = stdout io.
Proof.
  intros A B f Hf l; induction l as [|x l IH]; intros a io r io' H; simpl in H.
  - injection H as _ <-. reflexivity.
  - unfold bind in H. destruct (f a x io) as [[a'|e] io1] eqn:E.
    + apply IH in H. apply Hf in E. congruence.
    + injection H as _ <-. apply Hf in E. exact E.
Qed.

Lemma print_err_all_run : forall ls io,
  print_err_all ls io
  = (Ok tt, {| stdout := stdout io; stderr := (stderr io ++ ls)%list |}).
Proof.
  induction ls as [|l ls IH]; intros io; simpl.
  - unfold ret. rewrite app_nil_r. destruct io; reflexivity.
  - unfold bind, print_err. rewrite IH. simpl. rewrite <- app_assoc. reflexivity.
Qed.

(** ** The loop over the discovered paths *)

Lemma existsb_eqb_In : forall x l,
  existsb (String.eqb x) l = true <-> In x l.
Proof.
  intros x l. rewrite existsb_exists. split.
  - intros (y & Hy & E). apply String.eqb_eq in E. subst. exact Hy.
  - intros H. exists x. split; [exact H | apply String.eqb_refl].
Qed.

Lemma Entry_init_ok : forall env p e,
  Entry_init env p = Ok e -> getPath e = p /\ customName e = None.
Proof.
  intros env p e. unfold Entry_init, new_from_filename.
  destruct (load_keyfile env p); simpl; intros H; [|discriminate].
  injection H as <-. split; reflexivity.
Qed.

Lemma process_path_stdout : forall env config st p io r io',
  process_path env config st p io = (r, io') -> stdout io' = stdout io.
Proof.
  intros env config st p io r io'. unfold process_path.
  destruct (is_dir env p).
  - intros H; injection H as _ <-; reflexivity.
  - destruct (try_entry env config st p) as [st1|[]];
      intros H; injection H as _ <-; reflexivity.
Qed.

Lemma process_path_ok : forall env config st p io st' io',
  process_path env config st p io = (Ok st', io') ->
  (st' = st /\
   (passes env config p = false \/
    In (path_name p) (map getFilename (fst st ++ snd st)%list)))
  \/ (exists e, Entry_init env p = Ok e /\
                passes env config p = true /\
                ~ In (path_name p) (map getFilename (fst st ++ snd st)%list) /\
                st' = (fst st, (snd st ++ [e])%list)).
Proof.
  intros env config [pin gen] p io st' io'. unfold process_path, passes.
  destruct (is_dir env p); simpl.
  { intros H; injection H as <- _. left; auto. }
  unfold try_entry.
  destruct (Entry_init env p) as [e|x] eqn:Ee; simpl.
  2:{ destruct x; intros H; try discriminate.
      injection H as <- _. left; auto. }
  destruct (Entry_init_ok _ _ _ Ee) as [Hp _].
  destruct (getNoDisplay e); simpl.
  { intros H; injection H as <- _. left; auto. }
  destruct (isBlacklisted env e config) as [[|]|x]; simpl.
  - intros H; injection H as <- _. left; auto.
  - unfold getFilename at 1. rewrite Hp.
    destruct (existsb (String.eqb (path_name p)) (map getFilename (pin ++ gen)%list))
      eqn:Ex; intros H; injection H as <- _.
    + left. split; [reflexivity|]. right. apply existsb_eqb_In. exact Ex.
    + right. exists e. repeat split; auto.
      intros Hin. apply existsb_eqb_In in Hin. congruence.
  - destruct x; intros H; try discriminate.
    injection H as <- _. left; auto.
Qed.

Lemma first_passing_snoc : forall env config files p e,
  first_passing env config files e ->
  first_passing env config (files ++ [p])%list e.
Proof.
  intros env config files p e (before & after & -> & Hp & Hfirst).
  exists before, (after ++ [p])%list. repeat split; auto.
  rewrite <- app_assoc. reflexivity.
Qed.

Lemma collected_step : forall env config files st p io st' io',
  collected env config files st ->
  process_path env config st p io = (Ok st', io') ->
  collected env config (files ++ [p])%list st'.
Proof.
  intros env config files st p io st' io' (Hpin & Hnd & Hall & Hcomp) Hrun.
  apply process_path_ok in Hrun. rewrite Hpin in Hrun. simpl in Hrun.
  destruct Hrun as [[-> Hskip] | (e & He & Hpass & Hnew & ->)].
  - repeat split; auto.
    + eapply Forall_impl; [|exact Hall]. intros e [H1 H2]. split; auto.
      apply first_passing_snoc. exact H2.
    + intros q Hq Hqpass. apply in_app_or in Hq. destruct Hq as [Hq|[<-|[]]].
      * auto.
      * destruct Hskip as [Hf|Hin]; [congruence | exact Hin].
  - destruct (Entry_init_ok _ _ _ He) as [Hpath _].
    assert (Hname : getFilename e = path_name p)
      by (unfold getFilename; rewrite Hpath; reflexivity).
    unfold collected. simpl. repeat split; auto.
    + rewrite map_app. apply NoDup_app; simpl.
      * exact Hnd.
      * constructor; [intros [] | constructor].
      * intros a Ha [<-|[]]. apply Hnew. rewrite <- Hname. exact Ha.
    + apply Forall_app. split.
      * eapply Forall_impl; [|exact Hall]. intros e' [H1 H2]. split; auto.
        apply first_passing_snoc. exact H2.
      * constructor; [|constructor]. rewrite Hpath. split; [exact He|].
        exists files, []. rewrite Hpath. repeat split; auto.
        intros q Hq Hqpass Heq. apply Hnew. rewrite Hname in Heq.
        rewrite <- Heq. auto.
    + intros q Hq Hqpass. rewrite map_app. apply in_or_app.
      apply in_app_or in Hq. destruct Hq as [Hq|[<-|[]]].
      * left; auto.
      * right. simpl. left. exact Hname.
Qed.

Lemma collected_fold : forall env config todo done st io st' io',
  collected env config done st ->
  foldM (process_path env config) st todo io = (Ok st', io') ->
  collected env config (done ++ todo)%list st'.
Proof.
  intros env config todo; induction todo as [|p todo IH];
    intros done st io st' io' Hinv Hrun; simpl in Hrun.
  - injection Hrun as <- _. rewrite app_nil_r. exact Hinv.
  - unfold bind in Hrun.
    destruct (process_path env config st p io) as [[st1|e] io1] eqn:E;
      [|discriminate].
    replace (done ++ p :: todo)%list with ((done ++ [p]) ++ todo)%list
      by (rewrite <- app_assoc; reflexivity).
    eapply IH; [|exact Hrun]. eapply collected_step; eauto.
Qed.

Lemma collected_nil : forall env config, collected env config [] ([], []).
Proof.
  intros env config. repeat split; simpl; auto. constructor.
Qed.

Lemma collect_collected : forall env config io st io',
  collect env config io = (Ok st, io') ->
  collected env config (discovered env) st.
Proof.
  intros env config io st io' H. rewrite collect_flat in H.
  apply (collected_fold env config (discovered env) [] _ _ _ _
           (collected_nil env config) H).
Qed.

Lemma collect_stdout : forall env config io r io',
  collect env config io = (r, io') -> stdout io' = stdout io.
Proof.
  intros env config io r io' H. rewrite collect_flat in H.
  eapply foldM_stdout; [|exact H].
  intros a x io1 r1 io1'. apply process_path_stdout.
Qed.

(** ** Sorting *)

Lemma compare_refl : forall s, String.compare s s = Eq.
Proof. intros s. apply String_as_OT.cmp_eq. reflexivity. Qed.

Lemma ltb_irrefl : forall s, String.ltb s s = false.
Proof. intros s. unfold String.ltb. rewrite compare_refl. reflexivity. Qed.

Lemma ltb_false_leb : forall a b, String.ltb a b = false <-> key_le b a.
Proof.
  intros a b. unfold key_le, String.ltb, String.leb.
  rewrite (String.compare_antisym b a).
  destruct (String.compare a b); simpl; split; congruence.
Qed.

Lemma leb_cases : forall a b, key_le a b <-> a = b \/ String_as_OT.lt a b.
Proof.
  intros a b. unfold key_le, String.leb.
  destruct (String.compare a b) eqn:E; split; intros H; try reflexivity.
  - left. apply String_as_OT.cmp_eq. exact E.
  - right. apply String_as_OT.cmp_lt. exact E.
  - discriminate.
  - destruct H as [->|H].
    + rewrite compare_refl in E. discriminate.
    + apply String_as_OT.cmp_lt in H. unfold String_as_OT.cmp in H. congruence.
Qed.

Lemma key_le_refl : forall a, key_le a a.
Proof. intros a. apply leb_cases. left; reflexivity. Qed.

Lemma key_le_trans : forall a b c, key_le a b -> key_le b c -> key_le a c.
Proof.
  intros a b c Hab Hbc. apply leb_cases in Hab, Hbc. apply leb_cases.
  destruct Hab as [->|Hab]; [exact Hbc|].
  destruct Hbc as [<-|Hbc]; [right; exact Hab|].
  right. eapply String_as_OT.lt_trans; eauto.
Qed.

Lemma key_le_total : forall a b, key_le a b \/ key_le b a.
Proof. intros a b. apply String.leb_total. Qed.

Section Sorting.

Context {A : Type} (key : A -> string).

Lemma insert_by_perm : forall x l, Permutation (x :: l) (insert_by key x l).
Proof.
  intros x l; induction l as [|y l IH]; simpl.
  - apply Permutation_refl.
  - destruct (String.ltb (key y) (key x)).
    + eapply Permutation_trans; [apply perm_swap|].
      apply perm_skip. exact IH.
    + apply Permutation_refl.
Qed.

Lemma list_sort_perm : forall l, Permutation l (list_sort key l).
Proof.
  induction l as [|x l IH]; simpl.
  - apply perm_nil.
  - eapply Permutation_trans; [apply perm_skip; exact IH|].
    apply insert_by_perm.
Qed.

Lemma insert_by_hd : forall y x l,
  (le_by key) y x -> HdRel (le_by key) y l -> HdRel (le_by key) y (insert_by key x l).
Proof.
  intros y x l Hyx Hl. destruct l as [|z l]; simpl.
  - constructor. exact Hyx.
  - destruct (String.ltb (key z) (key x)); constructor.
    + inversion Hl; assumption.
    + exact Hyx.
Qed.

Lemma insert_by_sorted : forall x l,
  Sorted (le_by key) l -> Sorted (le_by key) (insert_by key x l).
Proof.
  intros x l; induction l as [|y l IH]; intros Hs; simpl.
  - repeat constructor.
  - inversion Hs as [|? ? Hs' Hhd]; subst.
    destruct (String.ltb (key y) (key x)) eqn:E.
    + constructor; [apply IH; exact Hs'|].
      apply insert_by_hd; [|exact Hhd].
      unfold le_by. apply ltb_false_leb.
      unfold String.ltb in *. rewrite String.compare_antisym.
      destruct (String.compare (key y) (key x)); simpl; congruence.
    + constructor; [exact Hs|]. constructor. apply ltb_false_leb. exact E.
Qed.

Lemma list_sort_sorted : forall l, Sorted (le_by key) (list_sort key l).
Proof.
  induction l as [|x l IH]; simpl.
  - constructor.
  - apply insert_by_sorted. exact IH.
Qed.

Lemma le_by_trans : Relations_1.Transitive (le_by key).
Proof. intros x y z. apply key_le_trans. Qed.

Lemma list_sort_strongly_sorted : forall l, StronglySorted (le_by key) (list_sort key l).
Proof.
  intros l. apply Sorted_StronglySorted; [exact le_by_trans|].
  apply list_sort_sorted.
Qed.

Lemma insert_by_filter : forall k x l,
  filter (fun e => String.eqb (key e) k) (insert_by key x l)
  = filter (fun e => String.eqb (key e) k) (x :: l).
Proof.
  intros k x l; induction l as [|y l IH]; simpl.
  - reflexivity.
  - destruct (String.ltb (key y) (key x)) eqn:E; [|reflexivity].
    simpl. rewrite IH. simpl.
    destruct (String.eqb (key x) k) eqn:Ex; [|reflexivity].
    destruct (String.eqb (key y) k) eqn:Ey; [|reflexivity].
    apply String.eqb_eq in Ex, Ey. rewrite Ex, Ey in E.
    rewrite ltb_irrefl in E. discriminate.
Qed.

Lemma list_sort_stable : forall k l,
  filter (fun e => String.eqb (key e) k) (list_sort key l)
  = filter (fun e => String.eqb (key e) k) l.
Proof.
  intros k l; induction l as [|x l IH]; simpl.
  - reflexivity.
  - rewrite insert_by_filter. simpl. rewrite IH. reflexivity.
Qed.

Lemma list_sort_of_sorted : forall l, Sorted (le_by key) l -> list_sort key l = l.
Proof.
  induction l as [|x l IH]; intros Hs; simpl.
  - reflexivity.
  - inversion Hs as [|? ? Hs' Hhd]; subst.
    rewrite IH by exact Hs'.
    destruct Hhd as [|y l Hxy]; simpl; [reflexivity|].
    apply ltb_false_leb in Hxy. rewrite Hxy. reflexivity.
Qed.

Lemma list_sort_idempotent : forall l,
  list_sort key (list_sort key l) = list_sort key l.
Proof. intros l. apply list_sort_of_sorted. apply list_sort_sorted. Qed.

Lemma Sorted_head_least : forall x l y,
  Sorted (le_by key) (x :: l) -> In y (x :: l) -> le_by key x y.
Proof.
  intros x l y Hs Hy.
  apply Sorted_StronglySorted in Hs; [|exact le_by_trans].
  inversion Hs as [|? ? _ Hall]; subst.
  destruct Hy as [<-|Hy].
  - apply key_le_refl.
  - rewrite Forall_forall in Hall. apply Hall. exact Hy.
Qed.

Lemma filter_key_head : forall x l,
  filter (fun e => String.eqb (key e) (key x)) (x :: l)
  = x :: filter (fun e => String.eqb (key e) (key x)) l.
Proof. intros x l. simpl. rewrite String.eqb_refl. reflexivity. Qed.

(** Two ordered lists that hold, for every key, the same items of that
    key in the same order are equal: the result of a stable sort is
    determined, whatever the algorithm. *)
Lemma stable_sorted_unique : forall l1 l2,
  Sorted (le_by key) l1 -> Sorted (le_by key) l2 ->
  (forall k, filter (fun e => String.eqb (key e) k) l1
             = filter (fun e => String.eqb (key e) k) l2) ->
  l1 = l2.
Proof.
  induction l1 as [|x t IH]; intros l2 Hs1 Hs2 Hf.
  - destruct l2 as [|y u]; [reflexivity|].
    specialize (Hf (key y)). rewrite filter_key_head in Hf. discriminate.
  - destruct l2 as [|y u].
    { specialize (Hf (key x)). rewrite filter_key_head in Hf. discriminate. }
    assert (Hxy : key x = key y).
    { apply String.leb_antisym.
      - apply (Sorted_head_least x t y Hs1).
        assert (Hin : In y (filter (fun e => String.eqb (key e) (key y)) (x :: t))).
        { rewrite Hf, filter_key_head. left. reflexivity. }
        apply filter_In in Hin. apply Hin.
      - apply (Sorted_head_least y u x Hs2).
        assert (Hin : In x (filter (fun e => String.eqb (key e) (key x)) (y :: u))).
        { rewrite <- Hf, filter_key_head. left. reflexivity. }
        apply filter_In in Hin. apply Hin. }
    assert (Heq : x = y).
    { pose proof (Hf (key x)) as H. rewrite filter_key_head in H.
      cbn [filter] in H. rewrite <- Hxy, String.eqb_refl in H.
      injection H as H _. exact H. }
    subst y. f_equal. apply IH.
    + inversion Hs1; assumption.
    + inversion Hs2; assumption.
    + intros k. specialize (Hf k). simpl in Hf.
      destruct (String.eqb (key x) k); [injection Hf as Hf|]; exact Hf.
Qed.

Lemma stable_sort_is_list_sort : forall l l',
  Sorted (le_by key) l' ->
  (forall k, filter (fun e => String.eqb (key e) k) l'
             = filter (fun e => String.eqb (key e) k) l) ->
  l' = list_sort key l.
Proof.
  intros l l' Hs Hf. apply stable_sorted_unique.
  - exact Hs.
  - apply list_sort_sorted.
  - intros k. rewrite Hf, list_sort_stable. reflexivity.
Qed.

Lemma insert_by_decorated : forall x (d : list (string * A)),
  Forall (fun p => fst p = key (snd p)) d ->
  map snd (insert_by fst (key x, x) d) = insert_by key x (map snd d).
Proof.
  intros x d; induction d as [|[k y] d IH]; intros Hd; simpl.
  - reflexivity.
  - inversion Hd as [|? ? Hk Hd']; subst. simpl in Hk. subst k.
    destruct (String.ltb (key y) (key x)); simpl; [|reflexivity].
    rewrite IH by exact Hd'. reflexivity.
Qed.

Lemma insert_by_decorated_all : forall x (d : list (string * A)),
  Forall (fun p => fst p = key (snd p)) d ->
  Forall (fun p => fst p = key (snd p)) (insert_by fst (key x, x) d).
Proof.
  intros x d Hd; induction Hd as [|[k y] d Hk Hd IH]; simpl.
  - repeat constructor.
  - destruct (String.ltb k (key x)); repeat constructor; auto.
Qed.

Lemma list_sort_decorated : forall l,
  Forall (fun p => fst p = key (snd p)) (list_sort fst (combine (map key l) l))
  /\ map snd (list_sort fst (combine (map key l) l)) = list_sort key l.
Proof.
  induction l as [|x l [IH1 IH2]]; simpl.
  - split; [constructor | reflexivity].
  - split.
    + apply insert_by_decorated_all. exact IH1.
    + rewrite insert_by_decorated by exact IH1. rewrite IH2. reflexivity.
Qed.

End Sorting.

Lemma mapR_sort_key : forall env entries,
  Forall (fun e => customName e = None) entries ->
  mapR (sort_key env) entries = Ok (map (name_key env) entries).
Proof.
  intros env entries H; induction H as [|e l He Hl IH]; simpl.
  - reflexivity.
  - unfold sort_key at 1. rewrite getName_default by exact He. simpl.
    rewrite IH. reflexivity.
Qed.

Lemma sort_entries_run : forall env entries,
  Forall (fun e => customName e = None) entries ->
  sort_entries env entries = Ok (list_sort (name_key env) entries).
Proof.
  intros env entries H. unfold sort_entries.
  rewrite mapR_sort_key by exact H. simpl.
  f_equal. apply list_sort_decorated.
Qed.

(** ** Printing *)

Lemma getName_ok : forall e n, getName e = Ok n -> n = get_name (entry e).
Proof.
  intros e n. unfold getName.
  destruct (customName e) as [[|c s]|]; intros H; congruence.
Qed.

Lemma print_entry_run : forall e io r io',
  print_entry e io = (r, io') ->
  (r = Ok tt /\ stdout io' = (stdout io ++ [record_of e])%list /\
   snd (getIcon_result e) = Ok (icon_value e))
  \/ ((exists x, r = Raise x) /\ stdout io' = stdout io).
Proof.
  intros e io r io'. unfold print_entry, truthy, bind, lift, getIcon, bind, lift.
  destruct (getName e) as [n|x] eqn:En.
  2:{ intros H; injection H as <- <-. right. split; eauto. }
  apply getName_ok in En. subst n.
  rewrite print_err_all_run.
  unfold record_of, icon_value.
  destruct (snd (getIcon_result e)) as [i|x]; intros H; injection H as <- <-.
  - left. simpl. auto.
  - right. simpl. split; eauto.
Qed.

Lemma emit_run : forall es io r io',
  emit es io = (r, io') ->
  exists k,
    stdout io' = (stdout io ++ map record_of (firstn k es))%list /\
    (r = Ok tt -> firstn k es = es) /\
    Forall (fun e => snd (getIcon_result e) = Ok (icon_value e)) (firstn k es).
Proof.
  induction es as [|e es IH]; intros io r io' H; simpl in H.
  - injection H as <- <-. exists 0. simpl. rewrite app_nil_r. auto.
  - unfold bind in H. destruct (print_entry e io) as [[u|x] io1] eqn:E.
    + apply print_entry_run in E.
      destruct E as [(_ & Hout & Hicon) | ([x Hx] & _)]; [|discriminate].
      apply IH in H. destruct H as (k & Hk & Hall & Hicons).
      exists (S k). simpl. rewrite Hk, Hout, <- app_assoc. simpl.
      repeat split; auto. intros Hr. f_equal. auto.
    + injection H as <- <-. apply print_entry_run in E.
      destruct E as [(Hx & _) | (_ & Hout)]; [discriminate|].
      exists 0. simpl. rewrite app_nil_r. repeat split; auto. discriminate.
Qed.

Lemma load_config_stdout : forall env io r io',
  load_config env io = (r, io') -> stdout io' = stdout io.
Proof.
  intros env io r io'. unfold load_config, lift, bind, print_err.
  destruct (path_exists env (CONFIG_user env));
    [intros H; injection H as _ <-; reflexivity|].
  destruct (path_exists env CONFIG_global);
    [intros H; injection H as _ <-; reflexivity|].
  destruct (path_exists env (CONFIG_relative env));
    intros H; injection H as _ <-; reflexivity.
Qed.

Lemma collected_no_custom : forall env config files st,
  collected env config files st ->
  Forall (fun e => customName e = None) (snd st).
Proof.
  intros env config files st (_ & _ & Hall & _).
  eapply Forall_impl; [|exact Hall].
  intros e [He _]. apply Entry_init_ok in He. apply He.
Qed.

(** What a run of [main] amounts to: either nothing is printed on
    stdout and the run ends on an exception, or the configuration
    loads, the collection ends with no pinned entry, and the records of
    the sorted general list are printed, all of them unless an icon
    lookup raises on the way. *)
Lemma main_run : forall env io r io',
  main env io = (r, io') ->
  (stdout io' = stdout io /\ r <> Ok tt)
  \/ exists config io1 general io2 k,
       load_config env io = (Ok config, io1) /\
       collect env config io1 = (Ok ([], general), io2) /\
       collected env config (discovered env) ([], general) /\
       stdout io'
       = (stdout io
          ++ map record_of (firstn k (list_sort (name_key env) general)))%list /\
       (r = Ok tt ->
        firstn k (list_sort (name_key env) general)
        = list_sort (name_key env) general) /\
       Forall (fun e => snd (getIcon_result e) = Ok (icon_value e))
              (firstn k (list_sort (name_key env) general)).
Proof.
  intros env io r io'. unfold main. unfold bind at 1.
  destruct (load_config env io) as [[config|x] io1] eqn:Ec.
  2:{ intros H; injection H as <- <-. left.
      split; [eapply load_config_stdout; eauto | discriminate]. }
  pose proof (load_config_stdout _ _ _ _ Ec) as Hout1.
  unfold bind at 1.
  destruct (collect env config io1) as [[[pin gen]|x] io2] eqn:Ecol.
  2:{ intros H; injection H as <- <-. left.
      split; [|discriminate]. apply collect_stdout in Ecol. congruence. }
  pose proof (collect_stdout _ _ _ _ _ Ecol) as Hout2.
  pose proof (collect_collected _ _ _ _ _ Ecol) as Hinv.
  assert (Hpin : pin = []) by (destruct Hinv as [Hp _]; exact Hp). subst pin.
  pose proof (collected_no_custom _ _ _ _ Hinv) as Hcustom. simpl in Hcustom.
  unfold bind at 1, lift at 1.
  destruct (setlocale env) as [u|x].
  2:{ intros H; injection H as <- <-. left. split; [congruence | discriminate]. }
  unfold bind at 1, lift at 1.
  rewrite sort_entries_run by exact Hcustom. simpl.
  intros H. apply emit_run in H. destruct H as (k & Hk & Hall & Hicons).
  right. exists config, io1, gen, io2, k.
  split; [reflexivity|]. split; [exact Ecol|]. split; [exact Hinv|].
  split; [rewrite Hk; congruence|]. split; assumption.
Qed.

(** ** The claims about the pipeline *)

(** C2, as stated, fails: for the one file that is no desktop entry the
    run prints two diagnostic lines, not one. *)
Lemma parse_failure_two_lines_cex :
  discovered broken_env = [mimeinfo_cache]
  /\ load_keyfile broken_env mimeinfo_cache = None
  /\ main broken_env io0
     = (Ok tt,
        {| stdout := [];
           stderr :=
             [ "[@] TypeError while processing /usr/share/applications/mimeinfo.cache. Probably not a desktop entry.";
               "[@] constructor returned NULL" ] |})
  /\ List.length (stderr (snd (main broken_env io0))) = 2.
Proof. repeat split; reflexivity. Qed.

(** C2, amended: a discovered file that fails to load as a desktop
    entry adds no entry to the lists, prints nothing on stdout and
    exactly two diagnostic lines on stderr; the loop goes on with the
    files after it; and no record printed by [main] carries its path. *)
Theorem parse_failure_skipped :
  forall env config p,
    is_dir env p = false ->
    load_keyfile env p = None ->
    let diagnostics :=
      [ "[@] TypeError while processing " ++ p ++ ". Probably not a desktop entry.";
        "[@] constructor returned NULL" ] in
    (forall st io,
       process_path env config st p io
       = (Ok st, {| stdout := stdout io;
                    stderr := (stderr io ++ diagnostics)%list |}))
    /\ (forall st before after io,
          foldM (process_path env config) st (before ++ p :: after)%list io
          = match foldM (process_path env config) st before io with
            | (Ok st1, io1) =>
                foldM (process_path env config) st1 after
                      {| stdout := stdout io1;
                         stderr := (stderr io1 ++ diagnostics)%list |}
            | (Raise e, io1) => (Raise e, io1)
            end)
    /\ (forall io r io',
          main env io = (r, io') ->
          exists entries,
            stdout io' = (stdout io ++ map record_of entries)%list /\
            Forall (fun e => getPath e <> p) entries).
Proof.
  intros env config p Hdir Hload diagnostics.
  assert (Hstep : forall st io,
             process_path env config st p io
             = (Ok st, {| stdout := stdout io;
                          stderr := (stderr io ++ diagnostics)%list |})).
  { intros [pin gen] io. unfold process_path, try_entry, Entry_init, new_from_filename.
    rewrite Hdir, Hload. simpl. unfold bind, print_err, ret. simpl.
    rewrite <- app_assoc. reflexivity. }
  split; [exact Hstep|]. split.
  - intros st before after io. rewrite foldM_app.
    destruct (foldM (process_path env config) st before io) as [[st1|e] io1];
      [|reflexivity].
    simpl. unfold bind. rewrite Hstep. reflexivity.
  - intros io r io' Hmain. apply main_run in Hmain.
    destruct Hmain as [[Hout _] | (cfg & io1 & gen & io2 & k & _ & _ & Hinv & Hout & _)].
    + exists []. simpl. rewrite app_nil_r. split; [exact Hout | constructor].
    + eexists. split; [exact Hout|].
      destruct Hinv as (_ & _ & Hall & _). simpl in Hall.
      assert (Hgen : Forall (fun e => getPath e <> p) gen).
      { eapply Forall_impl; [|exact Hall]. intros e [He _] Heq.
        rewrite Heq in He. unfold Entry_init, new_from_filename in He.
        rewrite Hload in He. discriminate. }
      assert (Hsorted : Forall (fun e => getPath e <> p)
                               (list_sort (name_key env) gen)).
      { eapply Permutation_Forall; [apply list_sort_perm | exact Hgen]. }
      rewrite <- (firstn_skipn k) in Hsorted. apply Forall_app in Hsorted.
      apply Hsorted.
Qed.

Lemma parse_failure_skipped_witness :
  process_path broken_env
    {| blacklist := JArr []; pinned := JArr []; customs := JArr [] |}
    ([], []) mimeinfo_cache io0
  = (Ok ([], []),
     {| stdout := [];
        stderr :=
          [ "[@] TypeError while processing /usr/share/applications/mimeinfo.cache. Probably not a desktop entry.";
            "[@] constructor returned NULL" ] |}).
Proof.
  exact (proj1 (parse_failure_skipped broken_env
                  {| blacklist := JArr []; pinned := JArr []; customs := JArr [] |}
                  mimeinfo_cache eq_refl eq_refl) ([], []) io0).
Defined.

Lemma Forall_sorted_prefix : forall {A} (P : A -> Prop) key k l,
  Forall P l -> Forall P (firstn k (list_sort key l)).
Proof.
  intros A P key k l H.
  assert (Hs : Forall P (list_sort key l))
    by (eapply Permutation_Forall; [apply list_sort_perm | exact H]).
  rewrite <- (firstn_skipn k) in Hs. apply Forall_app in Hs. apply Hs.
Qed.

Lemma NoDup_sorted_prefix : forall {A} (f : A -> string) key k l,
  NoDup (map f l) -> NoDup (map f (firstn k (list_sort key l))).
Proof.
  intros A f key k l H.
  assert (Hs : NoDup (map f (list_sort key l))).
  { eapply Permutation_NoDup; [|exact H].
    apply Permutation_map. apply list_sort_perm. }
  rewrite <- (firstn_skipn k (list_sort key l)), map_app in Hs.
  eapply NoDup_app_remove_r. exact Hs.
Qed.









(** C5, as stated, fails: the user's [tool.desktop] is seen first and is
    hidden, and the entry printed is the one of the system root, seen
    second. *)
Lemma survivor_not_first_seen_cex :
  discovered shadow_env = [user_tool_path; system_tool_path]
  /\ path_name user_tool_path = path_name system_tool_path
  /\ stdout (snd (main shadow_env io0)) = [record_of system_tool]
  /\ getPath system_tool = system_tool_path
  /\ ~ first_seen (discovered shadow_env) system_tool.
Proof.
  repeat split; try reflexivity.
  intros (before & after & Hfiles & Hfirst).
  change (discovered shadow_env) with [user_tool_path; system_tool_path] in Hfiles.
  destruct before as [|q before].
  - simpl in Hfiles. discriminate.
  - injection Hfiles as <- _. apply (Hfirst user_tool_path); [left|]; reflexivity.
Qed.

(** C5, amended: the entries whose records [main] prints have pairwise
    different file names, and each is the first discovered file of its
    name that loads as a desktop entry, is not hidden and is not
    blacklisted; when the run ends normally every such file name is
    printed. *)
Theorem dedup_keeps_first_passing :
  forall env io r io',
    main env io = (r, io') ->
    exists entries,
      stdout io' = (stdout io ++ map record_of entries)%list
      /\ NoDup (map getFilename entries)
      /\ (forall config io1,
            load_config env io = (Ok config, io1) ->
            Forall (first_passing env config (discovered env)) entries
            /\ (r = Ok tt ->
                forall q, In q (discovered env) -> passes env config q = true ->
                          In (path_name q) (map getFilename entries))).
Proof.
  intros env io r io' Hmain. apply main_run in Hmain.
  destruct Hmain as [[Hout Hr]
                    | (cfg & io1 & gen & io2 & k & Hcfg & _ & Hinv & Hout & Hall & _)].
  - exists []. simpl. rewrite app_nil_r.
    split; [exact Hout|]. split; [constructor|].
    intros config io1 _. split; [constructor|]. intros Hok. contradiction.
  - exists (firstn k (list_sort (name_key env) gen)).
    destruct Hinv as (_ & Hnd & Hfirst & Hcomp). simpl in Hnd, Hfirst, Hcomp.
    split; [exact Hout|]. split; [apply NoDup_sorted_prefix; exact Hnd|].
    intros config io1' Hcfg'. rewrite Hcfg in Hcfg'. injection Hcfg' as <- <-.
    split.
    + apply Forall_sorted_prefix. eapply Forall_impl; [|exact Hfirst].
      intros e [_ He]. exact He.
    + intros Hok q Hq Hpass. rewrite (Hall Hok).
      eapply Permutation_in; [|apply (Hcomp q Hq Hpass)].
      apply Permutation_map. apply list_sort_perm.
Qed.

Lemma dedup_keeps_first_passing_witness :
  exists entries,
    stdout (snd (main shadow_env io0)) = map record_of entries
    /\ NoDup (map getFilename entries).
Proof.
  destruct (dedup_keeps_first_passing shadow_env io0 (fst (main shadow_env io0))
              (snd (main shadow_env io0)) eq_refl) as (entries & Hout & Hnd & _).
  exists entries. split; [exact Hout | exact Hnd].
Defined.

(** C9: no run puts an entry in the pinned list; a run that ends
    normally prints exactly the records of the general list sorted by
    the locale key of the names, and a run that ends on an exception
    prints nothing or the first records of that sorted list. *)
Theorem pinned_stays_empty :
  forall env,
    (forall config io st io',
       collect env config io = (Ok st, io') -> fst st = [])
    /\ (forall io io',
          main env io = (Ok tt, io') ->
          exists config io1 general io2,
            load_config env io = (Ok config, io1) /\
            collect env config io1 = (Ok ([], general), io2) /\
            stdout io'
            = (stdout io ++ map record_of (list_sort (name_key env) general))%list)
    /\ (forall io r io',
          main env io = (r, io') ->
          stdout io' = stdout io
          \/ exists config io1 general io2 k,
               load_config env io = (Ok config, io1) /\
               collect env config io1 = (Ok ([], general), io2) /\
               stdout io'
               = (stdout io
                  ++ map record_of
                         (firstn k (list_sort (name_key env) general)))%list).
Proof.
  intros env. split; [|split].
  - intros config io st io' H. apply collect_collected in H. apply H.
  - intros io io' Hmain. apply main_run in Hmain.
    destruct Hmain as [[_ Hr]
                      | (cfg & io1 & gen & io2 & k & Hcfg & Hcol & _ & Hout & Hall & _)].
    + contradiction.
    + exists cfg, io1, gen, io2. repeat split; auto.
      rewrite Hout, (Hall eq_refl). reflexivity.
  - intros io r io' Hmain. apply main_run in Hmain.
    destruct Hmain as [[Hout _]
                      | (cfg & io1 & gen & io2 & k & Hcfg & Hcol & _ & Hout & _)].
    + left. exact Hout.
    + right. exists cfg, io1, gen, io2, k. auto.
Qed.

Lemma pinned_stays_empty_witness :
  exists general,
    stdout (snd (main two_apps_env io0))
    = map record_of (list_sort (name_key two_apps_env) general).
Proof.
  destruct (proj1 (proj2 (pinned_stays_empty two_apps_env)) io0
              (snd (main two_apps_env io0)) eq_refl)
    as (config & io1 & general & io2 & _ & _ & Hout).
  exists general. exact Hout.
Defined.

(** C8: the general list is sorted by the locale keys of the names; the
    comparison of keys is a total order; the result is ordered, holds
    the same entries, keeps entries of equal key in their former order,
    and sorting it again changes nothing. *)
Theorem sort_entries_sorted_stable :
  forall env entries,
    Forall (fun e => customName e = None) entries ->
    let sorted := list_sort (name_key env) entries in
    sort_entries env entries = Ok sorted
    /\ StronglySorted (le_by (name_key env)) sorted
    /\ Permutation entries sorted
    /\ (forall k,
          filter (fun e => String.eqb (name_key env e) k) sorted
          = filter (fun e => String.eqb (name_key env e) k) entries)
    /\ sort_entries env sorted = Ok sorted
    /\ (forall a b, key_le a b \/ key_le b a)
    /\ (forall a b c, key_le a b -> key_le b c -> key_le a c)
    /\ (forall a b, key_le a b -> key_le b a -> a = b).
Proof.
  intros env entries Hcustom sorted. subst sorted.
  split; [apply sort_entries_run; exact Hcustom|].
  split; [apply list_sort_strongly_sorted|].
  split; [apply list_sort_perm|].
  split; [intros k; apply list_sort_stable|].
  split.
  - rewrite sort_entries_run.
    + rewrite list_sort_idempotent. reflexivity.
    + eapply Permutation_Forall; [apply list_sort_perm | exact Hcustom].
  - split; [exact key_le_total|]. split; [exact key_le_trans|].
    intros a b. apply String.leb_antisym.
Qed.

Lemma sort_entries_sorted_stable_witness :
  sort_entries two_apps_env [zed; calc] = Ok [calc; zed].
Proof.
  assert (H : Forall (fun e => customName e = None) [zed; calc])
    by (repeat constructor).
  exact (proj1 (sort_entries_sorted_stable two_apps_env [zed; calc] H)).
Defined.

(** * Further properties of the code *)

(** ** Rules and rule lists *)

Lemma has_key_assoc : forall k kvs,
  has_key k kvs = match assoc k kvs with Some _ => true | None => false end.
Proof.
  intros k kvs; induction kvs as [|[k' v] rest IH]; simpl; [reflexivity|].
  destruct (String.eqb k k'); simpl; [reflexivity | exact IH].
Qed.

Lemma matchRule_dict : forall env self kvs,
  kvs <> [] ->
  matchRule env self (JObj kvs)
  = (m1 <- match assoc "name" kvs with
           | Some pat => s <- getName self ;; re_search env pat (Some s)
           | None => Ok true
           end ;;
     m2 <- match assoc "exec" kvs with
           | Some pat => re_search env pat (getCommandLine self)
           | None => Ok true
           end ;;
     Ok (m1 && m2))%res.
Proof.
  intros env self kvs Hne. unfold matchRule. cbn [py_len rbind].
  destruct kvs as [|kv kvs]; [congruence|]. cbn [List.length Nat.eqb].
  cbn [py_contains py_getitem rbind]. rewrite !has_key_assoc.
  destruct (assoc "name" (kv :: kvs)) as [p|]; cbn [rbind].
  - destruct (getName self) as [s|x]; cbn [rbind]; [|reflexivity].
    destruct (re_search env p (Some s)) as [[|]|x]; cbn [rbind]; [| |reflexivity].
    + destruct (assoc "exec" (kv :: kvs)) as [q|]; cbn [rbind]; [|reflexivity].
      destruct (re_search env q (getCommandLine self)) as [[|]|x]; reflexivity.
    + destruct (assoc "exec" (kv :: kvs)) as [q|]; cbn [rbind]; [|reflexivity].
      destruct (re_search env q (getCommandLine self)) as [[|]|x]; reflexivity.
  - destruct (assoc "exec" (kv :: kvs)) as [q|]; cbn [rbind]; [|reflexivity].
    destruct (re_search env q (getCommandLine self)) as [[|]|x]; reflexivity.
Qed.

(** X1: for a rule object with at least one key, [matchRule] reads
    nothing but the values under name and exec: other keys and the
    order of the keys change nothing. *)
Theorem matchRule_reads_name_and_exec :
  forall env self kvs kvs',
    kvs <> [] -> kvs' <> [] ->
    assoc "name" kvs = assoc "name" kvs' ->
    assoc "exec" kvs = assoc "exec" kvs' ->
    matchRule env self (JObj kvs) = matchRule env self (JObj kvs').
Proof.
  intros env self kvs kvs' Hne Hne' Hname Hexec.
  rewrite !matchRule_dict by assumption. rewrite Hname, Hexec. reflexivity.
Qed.

Lemma matchRule_reads_name_and_exec_witness :
  matchRule bare_env visible_tool
    (JObj [("exec", JStr "--gui"); ("note", JInt 1); ("name", JStr "Tool")])
  = matchRule bare_env visible_tool rule_tool_gui.
Proof.
  apply matchRule_reads_name_and_exec; try reflexivity; discriminate.
Defined.

(** X2: a rule with both keys matches exactly when the name is
    available and both searches succeed. *)
Theorem matchRule_both_keys :
  forall env self kvs pat_name pat_exec,
    assoc "name" kvs = Some pat_name ->
    assoc "exec" kvs = Some pat_exec ->
    (matchRule env self (JObj kvs) = Ok true <->
     exists s, getName self = Ok s /\
               re_search env pat_name (Some s) = Ok true /\
               re_search env pat_exec (getCommandLine self) = Ok true).
Proof.
  intros env self kvs p q Hname Hexec.
  rewrite matchRule_dict by (destruct kvs; [discriminate | congruence]).
  rewrite Hname, Hexec.
  destruct (getName self) as [s|x]; cbn [rbind].
  2:{ split; [discriminate | intros (s & H & _); discriminate]. }
  destruct (re_search env p (Some s)) as [[|]|x] eqn:Ep; cbn [rbind];
    destruct (re_search env q (getCommandLine self)) as [[|]|y] eqn:Eq;
    cbn [rbind andb]; split; intros H; try discriminate;
    try (destruct H as (s' & Hs & H1 & H2); injection Hs as <-; congruence).
  exists s. auto.
Qed.

Lemma matchRule_both_keys_witness :
  matchRule bare_env visible_tool rule_tool_gui = Ok true
  <-> exists s, getName visible_tool = Ok s /\
                re_search bare_env (JStr "Tool") (Some s) = Ok true /\
                re_search bare_env (JStr "--gui") (getCommandLine visible_tool) = Ok true.
Proof.
  exact (matchRule_both_keys bare_env visible_tool
           [("name", JStr "Tool"); ("exec", JStr "--gui")]
           (JStr "Tool") (JStr "--gui") eq_refl eq_refl).
Defined.

Lemma any_rule_matches_true : forall env self rules,
  any_rule_matches env self rules = Ok true <->
  exists before rule after,
    rules = (before ++ rule :: after)%list /\
    Forall (fun r => matchRule env self r = Ok false) before /\
    matchRule env self rule = Ok true.
Proof.
  intros env self rules; induction rules as [|r rules IH]; cbn [any_rule_matches].
  - split; [discriminate|]. intros (before & rule & after & H & _).
    destruct before; discriminate.
  - destruct (matchRule env self r) as [[|]|x] eqn:Er; cbn [rbind].
    + split; [intros _ | reflexivity].
      exists [], r, rules. repeat split; auto.
    + rewrite IH. split.
      * intros (before & rule & after & -> & Hb & Hr).
        exists (r :: before), rule, after. repeat split; auto.
      * intros (before & rule & after & H & Hb & Hr).
        destruct before as [|b before]; simpl in H; injection H as <- ->.
        -- congruence.
        -- inversion Hb; subst. exists before, rule, after. auto.
    + split; [discriminate|].
      intros (before & rule & after & H & Hb & Hr).
      destruct before as [|b before]; simpl in H; injection H as <- ->.
      * congruence.
      * inversion Hb; subst. congruence.
Qed.

Lemma any_rule_matches_false : forall env self rules,
  any_rule_matches env self rules = Ok false <->
  Forall (fun r => matchRule env self r = Ok false) rules.
Proof.
  intros env self rules; induction rules as [|r rules IH]; cbn [any_rule_matches].
  - split; [constructor | reflexivity].
  - destruct (matchRule env self r) as [[|]|x] eqn:Er; cbn [rbind].
    + split; [discriminate | intros H; inversion H; congruence].
    + rewrite IH. split; [intros H; constructor; auto | intros H; inversion H; auto].
    + split; [discriminate | intros H; inversion H; congruence].
Qed.

(** X3: [isBlacklisted] answers True exactly when some rule of the
    blacklist matches and every rule before it answers False, whatever
    the rules after it would do; it answers False exactly when every
    rule answers False. *)
Theorem isBlacklisted_first_match :
  forall env self config rules,
    py_iter (getBlacklist config) = Ok rules ->
    (isBlacklisted env self config = Ok true <->
     exists before rule after,
       rules = (before ++ rule :: after)%list /\
       Forall (fun r => matchRule env self r = Ok false) before /\
       matchRule env self rule = Ok true)
    /\ (isBlacklisted env self config = Ok false <->
        Forall (fun r => matchRule env self r = Ok false) rules).
Proof.
  intros env self config rules Hiter. unfold isBlacklisted.
  rewrite Hiter. cbn [rbind]. split.
  - apply any_rule_matches_true.
  - apply any_rule_matches_false.
Qed.

Lemma isBlacklisted_first_match_witness :
  isBlacklisted bare_env visible_tool
    (config_of (JArr [rule_hidden; rule_tool_gui; JInt 7])) = Ok true.
Proof.
  apply (proj1 (isBlacklisted_first_match bare_env visible_tool
                  (config_of (JArr [rule_hidden; rule_tool_gui; JInt 7]))
                  [rule_hidden; rule_tool_gui; JInt 7] eq_refl)).
  exists [rule_hidden], rule_tool_gui, [JInt 7].
  repeat split. constructor; [reflexivity | constructor].
Defined.

Lemma index_of_match_cases : forall env self rules i j,
  index_of_match env self i rules = Ok j ->
  (j = (-1)%Z /\ Forall (fun r => matchRule env self r = Ok false) rules)
  \/ exists n rule,
       j = (i + Z.of_nat n)%Z /\
       nth_error rules n = Some rule /\
       matchRule env self rule = Ok true /\
       Forall (fun r => matchRule env self r = Ok false) (firstn n rules).
Proof.
  intros env self rules; induction rules as [|r rules IH]; intros i j;
    cbn [index_of_match].
  - intros H; injection H as <-. left. split; [reflexivity | constructor].
  - destruct (matchRule env self r) as [[|]|x] eqn:Er; cbn [rbind];
      [| |discriminate].
    + intros H; injection H as <-. right. exists 0, r. simpl.
      repeat split; auto. lia.
    + intros H. apply IH in H.
      destruct H as [[-> Hall] | (n & rule & -> & Hn & Hr & Hall)].
      * left. split; [reflexivity | constructor; auto].
      * right. exists (S n), rule. simpl. repeat split; auto. lia.
Qed.

(** X4: when [indexOfPinned] returns, the result is -1 and no rule
    matches, or it is the position, below the number of rules, of the
    first rule that matches. *)
Theorem indexOfPinned_first_match :
  forall env self config rules j,
    py_iter (getPinned config) = Ok rules ->
    indexOfPinned env self config = Ok j ->
    (j = (-1)%Z /\ Forall (fun r => matchRule env self r = Ok false) rules)
    \/ exists n rule,
         j = Z.of_nat n /\
         n < List.length rules /\
         nth_error rules n = Some rule /\
         matchRule env self rule = Ok true /\
         Forall (fun r => matchRule env self r = Ok false) (firstn n rules).
Proof.
  intros env self config rules j Hiter. unfold indexOfPinned.
  rewrite Hiter. cbn [rbind]. intros H. apply index_of_match_cases in H.
  destruct H as [H | (n & rule & -> & Hn & Hr & Hall)]; [left; exact H|].
  right. exists n, rule. repeat split; auto.
  apply nth_error_Some. congruence.
Qed.

Lemma indexOfPinned_first_match_witness :
  (1 = (-1) /\ Forall (fun r => matchRule bare_env visible_tool r = Ok false)
                      [rule_hidden; rule_tool_gui; JInt 7])%Z
  \/ exists n rule,
       1%Z = Z.of_nat n /\
       n < 3 /\
       nth_error [rule_hidden; rule_tool_gui; JInt 7] n = Some rule /\
       matchRule bare_env visible_tool rule = Ok true /\
       Forall (fun r => matchRule bare_env visible_tool r = Ok false)
              (firstn n [rule_hidden; rule_tool_gui; JInt 7]).
Proof.
  exact (indexOfPinned_first_match bare_env visible_tool
           (config_of (JArr [rule_hidden; rule_tool_gui; JInt 7]))
           [rule_hidden; rule_tool_gui; JInt 7] 1%Z eq_refl eq_refl).
Defined.

Lemma index_of_match_any : forall env self rules i,
  (0 <= i)%Z ->
  any_rule_matches env self rules
  = (j <- index_of_match env self i rules ;; Ok (is_index j))%res.
Proof.
  intros env self rules; induction rules as [|r rules IH]; intros i Hi;
    cbn [any_rule_matches index_of_match].
  - reflexivity.
  - destruct (matchRule env self r) as [[|]|x]; cbn [rbind].
    + unfold is_index. destruct (Z.leb_spec 0 i); [reflexivity | lia].
    + apply IH. lia.
    + reflexivity.
Qed.

(** X5: over one list of rules the two checks agree: [isBlacklisted]
    returns True exactly when [indexOfPinned] returns a position rather
    than -1, and each raises what the other raises. *)
Theorem isBlacklisted_agrees_with_indexOfPinned :
  forall env self config,
    getBlacklist config = getPinned config ->
    isBlacklisted env self config
    = (j <- indexOfPinned env self config ;; Ok (is_index j))%res.
Proof.
  intros env self config Hsame. unfold isBlacklisted, indexOfPinned.
  rewrite Hsame. destruct (py_iter (getPinned config)) as [rules|x]; cbn [rbind].
  - apply index_of_match_any. lia.
  - reflexivity.
Qed.

Lemma isBlacklisted_agrees_with_indexOfPinned_witness :
  isBlacklisted bare_env visible_tool
    (config_of (JArr [rule_hidden; rule_tool_gui; JInt 7]))
  = Ok (is_index 1).
Proof.
  exact (isBlacklisted_agrees_with_indexOfPinned bare_env visible_tool
           (config_of (JArr [rule_hidden; rule_tool_gui; JInt 7])) eq_refl).
Defined.

(** ** Comment stripping, further *)

Lemma sub_comments_from_no_slashes : forall s,
  str_in "//" s = false -> sub_comments_from false s = s.
Proof.
  induction s as [|c s IH]; intros H; [reflexivity|].
  cbn [str_in] in H. apply orb_false_iff in H. destruct H as [Hp Hin].
  destruct s as [|c' s']; [reflexivity|].
  rewrite sub_comments_keep; [|exact Hp|discriminate].
  rewrite IH by exact Hin. reflexivity.
Qed.

Lemma prefix_slash_kept : forall s,
  String.prefix "/" s = false ->
  String.prefix "/" (sub_comments_from false s) = false.
Proof.
  intros [|c s] H; [reflexivity|].
  rewrite prefix_cons, prefix_nil in H.
  assert (Hc : Ascii.eqb c "/" = false).
  { rewrite Ascii.eqb_sym. destruct (Ascii.eqb "/" c); congruence. }
  cbn [sub_comments_from]. destruct s as [|c' s'].
  - rewrite prefix_cons, prefix_nil. exact H.
  - rewrite Hc. cbn [andb]. rewrite prefix_cons, prefix_nil. exact H.
Qed.

Lemma sub_comments_from_clean : forall n s c,
  String.length s <= n ->
  str_in "//" (sub_comments_from c s) = false
  /\ (c = true -> String.prefix "/" (sub_comments_from c s) = false).
Proof.
  induction n as [|n IH]; intros s c Hn.
  - destruct s; [|simpl in Hn; lia]. destruct c; split; reflexivity.
  - destruct s as [|x s]; [destruct c; split; reflexivity|].
    simpl in Hn. cbn [sub_comments_from]. destruct c.
    + destruct (Ascii.eqb x "010") eqn:Ex.
      * apply Ascii.eqb_eq in Ex. subst x.
        destruct (IH s false ltac:(lia)) as [H _].
        cbn [str_in]. rewrite H, prefix_cons. split; [reflexivity|].
        intros _. rewrite prefix_cons. reflexivity.
      * destruct (IH s true ltac:(lia)) as [H1 H2]. split; auto.
    + split; [|discriminate].
      destruct s as [|y s'].
      * cbn [str_in]. rewrite prefix_cons.
        destruct (Ascii.eqb "/" x); reflexivity.
      * simpl in Hn. destruct (Ascii.eqb x "/" && Ascii.eqb y "/") eqn:E.
        -- apply (IH s' true). lia.
        -- destruct (IH (String y s') false ltac:(simpl; lia)) as [H _].
           cbn [str_in]. rewrite H, orb_false_r, prefix_cons.
           destruct (Ascii.eqb "/" x) eqn:Ex; [|reflexivity].
           apply prefix_slash_kept. rewrite prefix_cons, prefix_nil.
           apply Ascii.eqb_eq in Ex. subst x. cbn [Ascii.eqb andb] in E.
           rewrite Ascii.eqb_sym.
           destruct (Ascii.eqb y "/") eqn:Ey; [|reflexivity].
           apply Ascii.eqb_eq in Ey. subst y. discriminate.
Qed.

(** X6: a text in which no two slashes stand side by side goes through
    comment stripping unchanged. *)
Theorem sub_comments_without_slashes :
  forall s, str_in "//" s = false -> sub_comments s = s.
Proof. intros s H. apply sub_comments_from_no_slashes. exact H. Qed.

Lemma sub_comments_without_slashes_witness :
  sub_comments empty_config_json = empty_config_json.
Proof. exact (sub_comments_without_slashes empty_config_json eq_refl). Defined.

(** X7: after comment stripping no two slashes stand side by side, so
    stripping a second time changes nothing. *)
Theorem sub_comments_idempotent :
  forall s,
    str_in "//" (sub_comments s) = false
    /\ sub_comments (sub_comments s) = sub_comments s.
Proof.
  intros s.
  assert (H : str_in "//" (sub_comments s) = false)
    by apply (sub_comments_from_clean (String.length s) s false (Nat.le_refl _)).
  split; [exact H|]. apply sub_comments_from_no_slashes. exact H.
Qed.

Lemma count_lf_sub_comments_from : forall n s c,
  String.length s <= n ->
  count_lf (sub_comments_from c s) = count_lf s.
Proof.
  induction n as [|n IH]; intros s c Hn.
  - destruct s; [|simpl in Hn; lia]. destruct c; reflexivity.
  - destruct s as [|x s]; [destruct c; reflexivity|].
    simpl in Hn. cbn [sub_comments_from]. destruct c.
    + destruct (Ascii.eqb x "010") eqn:Ex; cbn [count_lf]; rewrite ?Ex.
      * rewrite (IH s false) by lia. reflexivity.
      * rewrite (IH s true) by lia. reflexivity.
    + destruct s as [|y s']; [reflexivity|].
      simpl in Hn. destruct (Ascii.eqb x "/" && Ascii.eqb y "/") eqn:E.
      * apply andb_true_iff in E. destruct E as [Ex Ey].
        apply Ascii.eqb_eq in Ex, Ey. subst x y.
        rewrite (IH s' true) by lia. reflexivity.
      * cbn [count_lf]. rewrite (IH (String y s') false) by (simpl; lia).
        reflexivity.
Qed.

(** X8: comment stripping keeps every newline: the text has as many
    lines afterwards as before, so a line number reported by the JSON
    parser is a line number of the file. *)
Theorem sub_comments_keeps_lines :
  forall s, count_lf (sub_comments s) = count_lf s.
Proof.
  intros s. apply (count_lf_sub_comments_from (String.length s)). apply Nat.le_refl.
Qed.

(** ** File names *)

Lemma last_part_no_slash : forall n acc cur,
  str_in "/" n = false ->
  last_part acc cur n = close_part acc (cur ++ n).
Proof.
  induction n as [|c n IH]; intros acc cur H; cbn [last_part].
  - replace (cur ++ EmptyString) with cur; [reflexivity|].
    clear. induction cur as [|x cur IH]; simpl; [reflexivity | rewrite <- IH; reflexivity].
  - cbn [str_in] in H. apply orb_false_iff in H. destruct H as [Hp Hin].
    rewrite prefix_cons, prefix_nil in Hp.
    rewrite Ascii.eqb_sym.
    destruct (Ascii.eqb "/" c); [discriminate|].
    rewrite IH by exact Hin. rewrite append_assoc. reflexivity.
Qed.

Lemma last_part_after_slash : forall d acc cur,
  exists acc', forall n,
    last_part acc cur (d ++ "/" ++ n) = last_part acc' EmptyString n.
Proof.
  induction d as [|c d IH]; intros acc cur.
  - exists (close_part acc cur). intros n. reflexivity.
  - cbn [String.append last_part]. destruct (Ascii.eqb c "/"); apply IH.
Qed.

(** X9: the file name of a path is what follows its last slash, when
    that is neither empty nor a single dot; so the entry made for the
    path [dir/name] has the file name [name], whatever [dir] is. *)
Theorem path_name_last_component :
  forall dir name,
    str_in "/" name = false ->
    name <> EmptyString ->
    name <> "." ->
    path_name (dir ++ "/" ++ name) = name
    /\ forall env e,
         Entry_init env (dir ++ "/" ++ name) = Ok e -> getFilename e = name.
Proof.
  intros dir name Hslash Hne Hdot.
  assert (H : path_name (dir ++ "/" ++ name) = name).
  { unfold path_name.
    destruct (last_part_after_slash dir EmptyString EmptyString) as [acc Hacc].
    rewrite Hacc, last_part_no_slash by exact Hslash.
    cbn [String.append]. unfold close_part.
    destruct (String.eqb_spec name EmptyString); [contradiction|].
    destruct (String.eqb_spec name "."); [contradiction|]. reflexivity. }
  split; [exact H|].
  intros env e He. apply Entry_init_ok in He. destruct He as [Hp _].
  unfold getFilename. rewrite Hp. exact H.
Qed.

Lemma path_name_last_component_witness :
  path_name ("/usr/share/applications/kde" ++ "/" ++ "tool.desktop") = "tool.desktop".
Proof.
  refine (proj1 (path_name_last_component "/usr/share/applications/kde"
                   "tool.desktop" eq_refl _ _)); discriminate.
Defined.

(** ** The pipeline, further *)

Lemma passes_true : forall env config p e,
  passes env config p = true ->
  Entry_init env p = Ok e ->
  is_dir env p = false /\ getNoDisplay e = false /\
  isBlacklisted env e config = Ok false.
Proof.
  intros env config p e. unfold passes. intros H He. rewrite He in H.
  destruct (is_dir env p); [discriminate|].
  destruct (getNoDisplay e); [discriminate|].
  destruct (isBlacklisted env e config) as [[|]|x]; try discriminate. auto.
Qed.

(** X10: every entry whose record [main] prints is a file, not a
    directory, that loaded as a desktop entry, is not hidden, and for
    which [isBlacklisted] returned False. *)
Theorem printed_entries_pass_filters :
  forall env io r io' config io1,
    main env io = (r, io') ->
    load_config env io = (Ok config, io1) ->
    exists entries,
      stdout io' = (stdout io ++ map record_of entries)%list
      /\ Forall (fun e => is_dir env (getPath e) = false /\
                          Entry_init env (getPath e) = Ok e /\
                          getNoDisplay e = false /\
                          isBlacklisted env e config = Ok false) entries.
Proof.
  intros env io r io' config io1 Hmain Hcfg. apply main_run in Hmain.
  destruct Hmain as [[Hout _]
                    | (cfg & io1' & gen & io2 & k & Hcfg' & _ & Hinv & Hout & _)].
  - exists []. simpl. rewrite app_nil_r. split; [exact Hout | constructor].
  - rewrite Hcfg in Hcfg'. injection Hcfg' as <- <-.
    exists (firstn k (list_sort (name_key env) gen)). split; [exact Hout|].
    apply Forall_sorted_prefix.
    destruct Hinv as (_ & _ & Hall & _). simpl in Hall.
    eapply Forall_impl; [|exact Hall].
    intros e [He (before & after & _ & Hpass & _)].
    destruct (passes_true _ _ _ _ Hpass He) as (H1 & H2 & H3). auto.
Qed.

Lemma printed_entries_pass_filters_witness :
  exists entries,
    stdout (snd (main blacklist_env io0)) = map record_of entries
    /\ Forall (fun e => is_dir blacklist_env (getPath e) = false /\
                        Entry_init blacklist_env (getPath e) = Ok e /\
                        getNoDisplay e = false /\
                        isBlacklisted blacklist_env e
                          {| blacklist := JArr [rule_hidden];
                             pinned := JArr []; customs := JArr [] |}
                        = Ok false) entries.
Proof.
  exact (printed_entries_pass_filters blacklist_env io0
           (fst (main blacklist_env io0)) (snd (main blacklist_env io0))
           {| blacklist := JArr [rule_hidden]; pinned := JArr []; customs := JArr [] |}
           io0 eq_refl eq_refl).
Defined.

(** X11: when none of the three configuration paths exists, [main]
    prints one line on stderr, nothing on stdout, and exits with
    status 1. *)
Theorem main_without_config :
  forall env io,
    path_exists env (CONFIG_user env) = false ->
    path_exists env CONFIG_global = false ->
    path_exists env (CONFIG_relative env) = false ->
    main env io
    = (Raise (SystemExit 1),
       {| stdout := stdout io;
          stderr := (stderr io ++ ["[!] Config not found."])%list |}).
Proof.
  intros env io Hu Hg Hr. unfold main, bind at 1, load_config.
  rewrite Hu, Hg, Hr. reflexivity.
Qed.

Lemma main_without_config_witness :
  main bare_env io0
  = (Raise (SystemExit 1), {| stdout := []; stderr := ["[!] Config not found."] |}).
Proof. exact (main_without_config bare_env io0 eq_refl eq_refl eq_refl). Defined.

(** X12: when the user's configuration exists and does not load, [main]
    ends on that exception and prints nothing: the configurations at
    the other two paths are not tried. *)
Theorem main_no_config_fallback :
  forall env io e,
    path_exists env (CONFIG_user env) = true ->
    Config_init env (CONFIG_user env) = Raise e ->
    main env io = (Raise e, io).
Proof.
  intros env io e Hu Hinit. unfold main, bind at 1, load_config.
  rewrite Hu. unfold lift. rewrite Hinit. reflexivity.
Qed.

Lemma main_no_config_fallback_witness :
  path_exists fallback_env CONFIG_global = true
  /\ (exists config, Config_init fallback_env CONFIG_global = Ok config)
  /\ main fallback_env io0
     = (Raise (JSONDecodeError "Expecting value: line 1 column 1 (char 0)"), io0).
Proof.
  split; [reflexivity|]. split; [eexists; reflexivity|].
  exact (main_no_config_fallback fallback_env io0 _ eq_refl eq_refl).
Defined.

Lemma foldM_ext : forall {A B} (f g : A -> B -> M A),
  (forall a x io, f a x io = g a x io) ->
  forall l a io, foldM f a l io = foldM g a l io.
Proof.
  intros A B f g H l; induction l as [|x l IH]; intros a io; simpl.
  - reflexivity.
  - unfold bind. rewrite H. destruct (g a x io) as [[a'|e] io1]; [apply IH | reflexivity].
Qed.

(** X13: the collection reads the blacklist and nothing else of the
    configuration: two configurations with the same blacklist give
    the same lists and the same diagnostics, whatever their pinned and
    customs fields hold. *)
Theorem collect_reads_blacklist_only :
  forall env config config' io,
    blacklist config = blacklist config' ->
    collect env config io = collect env config' io.
Proof.
  intros env config config' io Hsame. unfold collect.
  apply foldM_ext. intros st root io1. unfold process_root.
  apply foldM_ext. intros [pin gen] p io2.
  unfold process_path, try_entry, isBlacklisted, getBlacklist.
  rewrite Hsame. reflexivity.
Qed.

Lemma collect_reads_blacklist_only_witness :
  collect two_apps_env
    {| blacklist := JArr []; pinned := JArr [rule_tool_gui]; customs := JInt 3 |} io0
  = collect two_apps_env
      {| blacklist := JArr []; pinned := JArr []; customs := JArr [] |} io0.
Proof.
  exact (collect_reads_blacklist_only two_apps_env
           {| blacklist := JArr []; pinned := JArr [rule_tool_gui]; customs := JInt 3 |}
           {| blacklist := JArr []; pinned := JArr []; customs := JArr [] |}
           io0 eq_refl).
Defined.

Lemma getIcon_result_ok : forall e,
  get_icon (entry e) <> Some (ThemedIcon []) ->
  snd (getIcon_result e) = Ok (icon_value e).
Proof.
  intros e H. unfold icon_value, getIcon_result in *.
  destruct (get_icon (entry e)) as [[[f|]|[|n names]|]|]; try reflexivity.
  congruence.
Qed.

(** X14: for entries without custom name, none of which has a themed
    icon without names, the printing loop ends normally, prints one
    record per entry in the order of the list, and sends to stderr the
    diagnostics of the icon lookups, entry after entry. *)
Theorem emit_prints_every_entry :
  forall entries io,
    Forall (fun e => customName e = None /\
                     get_icon (entry e) <> Some (ThemedIcon [])) entries ->
    emit entries io
    = (Ok tt,
       {| stdout := (stdout io ++ map record_of entries)%list;
          stderr := (stderr io
                     ++ List.concat (map (fun e => fst (getIcon_result e)) entries))%list |}).
Proof.
  intros entries io H; revert io.
  induction H as [|e entries [Hname Hicon] _ IH]; intros io.
  - simpl. unfold ret. rewrite !app_nil_r. destruct io; reflexivity.
  - cbn [emit]. unfold bind at 1.
    unfold print_entry, truthy, bind at 1, lift at 1.
    rewrite (getName_default e Hname).
    unfold bind at 1, getIcon, bind at 1. rewrite print_err_all_run.
    unfold lift. rewrite (getIcon_result_ok e Hicon).
    unfold print_out. rewrite IH. cbn [stdout stderr map List.concat].
    rewrite <- !app_assoc. reflexivity.
Qed.

Lemma emit_prints_every_entry_witness :
  emit [broken_icon_tool; zed] io0
  = (Ok tt,
     {| stdout := [record_of broken_icon_tool; record_of zed];
        stderr := [ "[!] AttributeError while reading icon file of tool.desktop.";
                    "[!] 'NoneType' object has no attribute 'get_path'." ] |}).
Proof.
  refine (emit_prints_every_entry [broken_icon_tool; zed] io0 _).
  repeat constructor; discriminate.
Defined.

(** X15: when the iteration over the blacklist raises, as it does for
    a blacklist that is null, a number or a boolean, [main] prints no
    record at all. *)
Theorem blacklist_not_iterable_hides_all :
  forall env io r io' config io1 x,
    load_config env io = (Ok config, io1) ->
    py_iter (getBlacklist config) = Raise x ->
    main env io = (r, io') ->
    stdout io' = stdout io.
Proof.
  intros env io r io' config io1 x Hcfg Hiter Hmain. apply main_run in Hmain.
  destruct Hmain as [[Hout _]
                    | (cfg & io1' & gen & io2 & k & Hcfg' & _ & Hinv & Hout & _)].
  - exact Hout.
  - rewrite Hcfg in Hcfg'. injection Hcfg' as <- <-.
    destruct Hinv as (_ & _ & Hall & _). simpl in Hall.
    destruct gen as [|e gen].
    + rewrite Hout. destruct k; simpl; apply app_nil_r.
    + inversion Hall as [|? ? [He (before & after & _ & Hpass & _)] _]; subst.
      destruct (passes_true _ _ _ _ Hpass He) as (_ & _ & Hb).
      unfold isBlacklisted in Hb. rewrite Hiter in Hb. discriminate.
Qed.

Lemma blacklist_not_iterable_hides_all_witness :
  stdout (snd (main null_blacklist_env io0)) = [].
Proof.
  exact (blacklist_not_iterable_hides_all null_blacklist_env io0
           (fst (main null_blacklist_env io0)) (snd (main null_blacklist_env io0))
           {| blacklist := JNull; pinned := JArr []; customs := JArr [] |} io0
           (TypeError "'NoneType' object is not iterable")
           eq_refl eq_refl eq_refl).
Defined.

Lemma process_path_raises : forall env config p e x,
  is_dir env p = false ->
  Entry_init env p = Ok e ->
  getNoDisplay e = false ->
  isBlacklisted env e config = Raise x ->
  (forall m, x <> TypeError m) ->
  forall st io, process_path env config st p io = (Raise x, io).
Proof.
  intros env config p e x Hdir He Hvis Hb Hx [pin gen] io.
  unfold process_path, try_entry. rewrite Hdir, He. cbn [rbind].
  rewrite Hvis, Hb. cbn [rbind].
  destruct x; try reflexivity. exfalso. eapply Hx. reflexivity.
Qed.

Lemma foldM_raises_at : forall {A B} (f : A -> B -> M A) p x,
  (forall a io, f a p io = (Raise x, io)) ->
  forall l, In p l ->
  forall a io, exists x' io', foldM f a l io = (Raise x', io').
Proof.
  intros A B f p x Hp l; induction l as [|q l IH]; intros Hin a io.
  - destruct Hin.
  - cbn [foldM]. unfold bind.
    destruct (f a q io) as [[a'|e] io1] eqn:E.
    + destruct Hin as [->|Hin]; [rewrite Hp in E; discriminate|].
      apply IH. exact Hin.
    + eauto.
Qed.

(** X16: an exception other than TypeError raised while a visible entry
    is checked against the blacklist, such as the one of a pattern that
    does not compile, ends the whole run: [main] raises and prints no
    record. *)
Theorem blacklist_error_aborts_run :
  forall env io config io1 p e x,
    load_config env io = (Ok config, io1) ->
    In p (discovered env) ->
    is_dir env p = false ->
    Entry_init env p = Ok e ->
    getNoDisplay e = false ->
    isBlacklisted env e config = Raise x ->
    (forall m, x <> TypeError m) ->
    exists x' io', main env io = (Raise x', io') /\ stdout io' = stdout io.
Proof.
  intros env io config io1 p e x Hcfg Hin Hdir He Hvis Hb Hx.
  destruct (foldM_raises_at (process_path env config) p x
              (process_path_raises env config p e x Hdir He Hvis Hb Hx)
              (discovered env) Hin ([], []) io1) as (x' & io2 & Hfold).
  rewrite <- collect_flat in Hfold.
  exists x', io2. split.
  - unfold main, bind at 1. rewrite Hcfg. unfold bind at 1. rewrite Hfold.
    reflexivity.
  - apply collect_stdout in Hfold. apply load_config_stdout in Hcfg. congruence.
Qed.

Lemma blacklist_error_aborts_run_witness :
  exists x' io', main bad_pattern_env io0 = (Raise x', io') /\ stdout io' = [].
Proof.
  refine (blacklist_error_aborts_run bad_pattern_env io0 _ io0 system_tool_path _
            (ReError "missing ), unterminated subpattern at position 0")
            eq_refl _ eq_refl eq_refl eq_refl eq_refl _).
  - left. reflexivity.
  - intros m. discriminate.
Defined.

(** ** The output line *)

Lemma split_at_char : forall sep a b x y,
  str_in (String sep EmptyString) a = false ->
  str_in (String sep EmptyString) b = false ->
  a ++ String sep x = b ++ String sep y ->
  a = b /\ x = y.
Proof.
  intros sep a; induction a as [|c a IH]; intros b x y Ha Hb H.
  - destruct b as [|c' b]; cbn [String.append] in H.
    + injection H as ->. auto.
    + injection H as <- _. cbn [str_in] in Hb.
      rewrite prefix_cons, Ascii.eqb_refl, prefix_nil in Hb. discriminate.
  - destruct b as [|c' b]; cbn [String.append] in H.
    + injection H as -> _. cbn [str_in] in Ha.
      rewrite prefix_cons, Ascii.eqb_refl, prefix_nil in Ha. discriminate.
    + injection H as <- H. cbn [str_in] in Ha, Hb.
      apply orb_false_iff in Ha, Hb.
      destruct (IH b x y (proj2 Ha) (proj2 Hb) H) as [-> ->]. auto.
Qed.

(** X17: a printed line determines its three fields: two records are
    equal only when the names, the icon fields and the paths are,
    provided the names hold no NUL and the icon fields no unit
    separator.  The icon field does not tell an absent icon from an icon
    named None. *)
Theorem record_determines_fields :
  forall name icon path name' icon' path',
    str_in NUL name = false ->
    str_in NUL name' = false ->
    str_in US (format_opt icon) = false ->
    str_in US (format_opt icon') = false ->
    (record name icon path = record name' icon' path' ->
     name = name' /\ format_opt icon = format_opt icon' /\ path = path')
    /\ record name None path = record name (Some "None") path.
Proof.
  intros name icon path name' icon' path' Hn Hn' Hi Hi'.
  split; [|reflexivity].
  unfold record, NUL, US in *. cbn [String.append]. intros H.
  apply split_at_char in H; [|assumption|assumption].
  destruct H as [-> H]. injection H as H.
  apply split_at_char in H; [|assumption|assumption].
  destruct H as [-> H]. injection H as ->. auto.
Qed.

Lemma record_determines_fields_witness :
  get_name (entry zed) = "Zed" /\ format_opt (icon_value zed) = "zed"
  /\ getPath zed = zed_path.
Proof.
  exact (proj1 (record_determines_fields (get_name (entry zed)) (icon_value zed)
                  (getPath zed) "Zed" (Some "zed") zed_path
                  eq_refl eq_refl eq_refl eq_refl) eq_refl).
Defined.

Lemma StronglySorted_app_l : forall {A} (R : A -> A -> Prop) l1 l2,
  StronglySorted R (l1 ++ l2)%list -> StronglySorted R l1.
Proof.
  intros A R l1; induction l1 as [|x l1 IH]; intros l2 H.
  - constructor.
  - simpl in H. inversion H as [|? ? Hs Hall]; subst. constructor.
    + eapply IH. exact Hs.
    + apply Forall_app in Hall. apply Hall.
Qed.

(** X18: the records [main] prints stand in the order of the locale
    keys of their names, each key at most the next ones; this holds
    also for the records printed before a run ends on an exception. *)
Theorem main_prints_in_key_order :
  forall env io r io',
    main env io = (r, io') ->
    exists entries,
      stdout io' = (stdout io ++ map record_of entries)%list
      /\ StronglySorted (le_by (name_key env)) entries.
Proof.
  intros env io r io' Hmain. apply main_run in Hmain.
  destruct Hmain as [[Hout _]
                    | (cfg & io1 & gen & io2 & k & _ & _ & _ & Hout & _)].
  - exists []. simpl. rewrite app_nil_r. split; [exact Hout | constructor].
  - exists (firstn k (list_sort (name_key env) gen)). split; [exact Hout|].
    apply (StronglySorted_app_l _ _ (skipn k (list_sort (name_key env) gen))).
    rewrite firstn_skipn. apply list_sort_strongly_sorted.
Qed.

Lemma main_prints_in_key_order_witness :
  exists entries,
    stdout (snd (main two_apps_env io0)) = map record_of entries
    /\ StronglySorted (le_by (name_key two_apps_env)) entries.
Proof.
  exact (main_prints_in_key_order two_apps_env io0 (fst (main two_apps_env io0))
           (snd (main two_apps_env io0)) eq_refl).
Defined.

(** X19: a TypeError raised while a visible entry is checked against
    the blacklist is handled as a file that does not load: the entry is
    left out, the two lists stay as they are, nothing goes to stdout,
    and stderr gets the line naming the file and the line with the
    message. *)
Theorem blacklist_type_error_skips_entry :
  forall env config p e msg st io,
    is_dir env p = false ->
    Entry_init env p = Ok e ->
    getNoDisplay e = false ->
    isBlacklisted env e config = Raise (TypeError msg) ->
    process_path env config st p io
    = (Ok st,
       {| stdout := stdout io;
          stderr := (stderr io
                     ++ [ ("[@] TypeError while processing " ++ p
                             ++ ". Probably not a desktop entry.")%string;
                          ("[@] " ++ msg)%string ])%list |}).
Proof.
  intros env config p e msg [pin gen] io Hdir He Hvis Hb.
  unfold process_path, try_entry. rewrite Hdir, He. cbn [rbind].
  rewrite Hvis, Hb. cbn [rbind]. unfold bind, print_err, ret. simpl.
  rewrite <- app_assoc. reflexivity.
Qed.

Lemma blacklist_type_error_skips_entry_witness :
  process_path no_exec_env (config_of (JArr [rule_exec])) ([], []) no_exec_path io0
  = (Ok ([], []),
     {| stdout := [];
        stderr :=
          [ "[@] TypeError while processing /usr/share/applications/service.desktop. Probably not a desktop entry.";
            "[@] expected string or bytes-like object, got 'NoneType'" ] |}).
Proof.
  exact (blacklist_type_error_skips_entry no_exec_env (config_of (JArr [rule_exec]))
           no_exec_path (entry_of no_exec_path (plain_keyfile "Service" None) None)
           "expected string or bytes-like object, got 'NoneType'" ([], []) io0
           eq_refl eq_refl eq_refl eq_refl).
Defined.
